(** * linuxdeploy-plugin-qt: module resolution, qmake query parsing and the
      deployment sequence of [main]

    A shallow embedding of [src/main.cpp] and [src/util.cpp].

    - [std::string] is [string]: a sequence of bytes that may contain the
      NUL byte.  [c_str()] is the same byte sequence seen through a
      [const char*]: the C library functions stop at the first NUL, and the
      terminator that follows the last byte is read as NUL.
    - [std::map<std::string, std::string>] is [gmap string string],
      [std::set<std::string>] is [gset string], iterated in the order of
      [std::less<std::string>], [std::vector] is [list].
    - The collaborators (file system, ELF inspector, subprocesses, the
      deployers and the AppDir) are fields of a record of oracles; the part
      of the run that changes the bundle threads an abstract world and
      records a trace of events.
    - A call that does not return is [None]: a query of
      [boost::filesystem] that throws [filesystem_error], and a read past
      the bytes that are readable behind a pointer.  [main] catches
      neither, so a run ends by returning an exit status or by being
      killed. *)

From Stdlib Require Import ZArith Ascii.
From stdpp Require Import base option list gmap sets strings sorting.

Local Open Scope Z_scope.

(** ** C strings *)

Module CString.

Definition NUL : ascii := Ascii.zero.

(** The byte under a [const char*]: past the last byte of the
    [std::string] buffer sits the terminator. *)
Definition deref (p : string) : ascii :=
  match p with
  | EmptyString => NUL
  | String c _ => c
  end.

(** [p + 1]. It is never taken once the terminator has been read. *)
Definition next (p : string) : string :=
  match p with
  | EmptyString => EmptyString
  | String _ t => t
  end.

Definition uchar (c : ascii) : Z := Z.of_nat (nat_of_ascii c).

(** [std::string::c_str()]: a pointer to the bytes of the string. *)
Definition c_str (s : string) : string := s.

(** [strncmp(s1, s2, n)]: compares at most [n] bytes, as unsigned
    characters, and stops after a NUL. *)
Fixpoint strncmp (s1 s2 : string) (n : nat) : Z :=
  match n with
  | O => 0
  | S n' =>
      let c1 := deref s1 in
      let c2 := deref s2 in
      if negb (Ascii.eqb c1 c2) then uchar c1 - uchar c2
      else if Ascii.eqb c1 NUL then 0
      else strncmp (next s1) (next s2) n'
  end.

(** [strcmp(s1, s2)]. *)
Fixpoint strcmp (s1 s2 : string) : Z :=
  match s1 with
  | EmptyString => uchar NUL - uchar (deref s2)
  | String c1 t1 =>
      let c2 := deref s2 in
      if negb (Ascii.eqb c1 c2) then uchar c1 - uchar c2
      else if Ascii.eqb c1 NUL then 0
      else strcmp t1 (next s2)
  end.

(** The text a C function sees behind a pointer: the bytes before the
    first NUL. *)
Fixpoint c_text (p : string) : string :=
  match p with
  | EmptyString => EmptyString
  | String c t => if Ascii.eqb c NUL then EmptyString else String c (c_text t)
  end.

(** [std::string(const char* s, size_t n)]: the first [n] bytes at [s],
    NUL bytes included.  The argument lists the bytes that are readable
    from [s] on; the constructor reads [n] bytes whatever they are, and
    with fewer than [n] readable bytes the read runs into memory that is
    not mapped: [None]. *)
Fixpoint string_of_buffer (p : string) (n : nat) : option string :=
  match n with
  | O => Some EmptyString
  | S n' =>
      match p with
      | EmptyString => None
      | String c t => String c <$> string_of_buffer t n'
      end
  end.

(** No byte of the string is NUL. *)
Fixpoint nul_free (s : string) : Prop :=
  match s with
  | EmptyString => True
  | String c t => c ≠ NUL ∧ nul_free t
  end.

Fixpoint nul_freeb (s : string) : bool :=
  match s with
  | EmptyString => true
  | String c t => negb (Ascii.eqb c NUL) && nul_freeb t
  end.

End CString.

Import CString.

(** [p] is an initial segment of [s]. *)
Definition is_prefix (p s : string) : Prop := ∃ rest, s = p +:+ rest.

Fixpoint is_prefixb (p s : string) : bool :=
  match p, s with
  | EmptyString, _ => true
  | String a p', String b s' => Ascii.eqb a b && is_prefixb p' s'
  | String _ _, EmptyString => false
  end.

(** ** util.cpp *)

(** [bool strStartsWith(const std::string &str, const std::string &prefix)] *)
Definition strStartsWith (str prefix : string) : bool :=
  if (String.length str <? String.length prefix)%nat then false
  else strncmp (c_str str) (c_str prefix) (String.length prefix) =? 0.

(** [bool strEndsWith(const std::string &str, const std::string &suffix)]:
    the comparison starts at [str.c_str() + (str.size() - suffix.size())]. *)
Fixpoint advance (p : string) (n : nat) : string :=
  match n with
  | O => p
  | S n' => advance (next p) n'
  end.

Definition strEndsWith (str suffix : string) : bool :=
  if (String.length str <? String.length suffix)%nat then false
  else strncmp (advance (c_str str) (String.length str - String.length suffix))
               (c_str suffix) (String.length suffix) =? 0.

(** [std::getline(stream, part, delim)] in a [while] loop that pushes every
    part: a part ends at [delim] (which is consumed) or at the end of the
    stream; a read that extracts nothing at all, because the stream is
    already at its end, fails and ends the loop.  [cur] holds the bytes
    that the running [getline] has extracted so far. *)
Fixpoint getline_loop (cur : string) (stream : string) (delim : ascii)
  : list string :=
  match stream with
  | EmptyString =>
      match cur with
      | EmptyString => []
      | _ => [cur]
      end
  | String c rest =>
      if Ascii.eqb c delim then cur :: getline_loop EmptyString rest delim
      else getline_loop (cur +:+ String c EmptyString) rest delim
  end.

(** The lambda [stringSplit] of [queryQmake]. *)
Definition stringSplit (str : string) (delim : ascii) : list string :=
  getline_loop EmptyString str delim.

Definition newline : ascii := ascii_of_nat 10.

(** [while (std::getline(ss, line))] over the whole output. *)
Definition getlines (out : string) : list string :=
  getline_loop EmptyString out newline.

(** Body of the [while] loop of [queryQmake]: [rv[parts[0]] = parts[1]]
    when the line has exactly two parts, [continue] otherwise. *)
Definition queryQmake_line (rv : gmap string string) (line : string)
  : gmap string string :=
  match stringSplit line ":"%char with
  | [key; value] => <[key := value]> rv
  | _ => rv
  end.

Definition parseQmakeOutput (out : string) : gmap string string :=
  foldl queryQmake_line ∅ (getlines out).

(** [procOutput] of util.h. *)
Record procOutput := {
  success : bool;
  retcode : Z;
  stdoutOutput : string;
  stderrOutput : string
}.

(** What [subprocess::Popen] hands back once the child has finished: the
    exit code and the two pipe buffers. *)
Record Popen := {
  proc_retcode : Z;
  proc_stdout : string;
  proc_stderr : string
}.

(** ** qt-modules.h *)

(** Modelled from the spec: qt-modules.h is not among the sources; a catalog
    entry has a canonical [name] and a [libraryFilePrefix], the two fields
    [main] reads.  The catalog itself ([QtModules]) is a parameter of the
    development. *)
Record QtModule := {
  name : string;
  libraryFilePrefix : string
}.

Global Instance QtModule_eq_dec : EqDecision QtModule.
Proof. solve_decision. Defined.

(** ** boost::filesystem::path::filename *)

(** The bytes after the last ['/']. *)
Fixpoint last_component (cur : string) (p : string) : string :=
  match p with
  | EmptyString => cur
  | String c rest =>
      if Ascii.eqb c "/"%char then last_component EmptyString rest
      else last_component (cur +:+ String c EmptyString) rest
  end.

Fixpoint all_slashes (p : string) : bool :=
  match p with
  | EmptyString => true
  | String c rest => Ascii.eqb c "/"%char && all_slashes rest
  end.

(** [bf::path(p).filename().string()] for POSIX paths: the last element of
    the path; ["."] for a path that ends in a separator, ["/"] for the root
    directory, the empty path for the empty path. *)
Definition path_filename (p : string) : string :=
  match last_component EmptyString p with
  | String c rest => String c rest
  | EmptyString =>
      match p with
      | EmptyString => EmptyString
      | _ => if all_slashes p then "/" else "."
      end
  end.

(** ** The collaborators *)

Inductive LogLevel := LD_DEBUG | LD_INFO | LD_WARNING | LD_ERROR.

(** What a run does to the outside, in order.  Log lines below warning
    level are recorded only for the per-module header. *)
Inductive Event :=
| EvStdout (text : string)
| EvUsage
| EvLog (level : LogLevel) (parts : list string)
| EvDisableCopyrightFiles
| EvSetenv (variable value : string)
| EvModule (module_name : string)
| EvDeploy (module_name : string) (index : nat) (ok : bool)
| EvDeployTranslations (ok : bool)
| EvDeferredOperations (ok : bool)
| EvQtConf (ok : bool)
| EvAppRunHook (ok : bool).

Global Instance LogLevel_eq_dec : EqDecision LogLevel.
Proof. solve_decision. Defined.

Global Instance Event_eq_dec : EqDecision Event.
Proof. solve_decision. Defined.

(** The Qt directories handed to [PluginsDeployerFactory]. *)
Record QtPaths := {
  qtPluginsPath : string;
  qtLibexecsPath : string;
  qtInstallQmlPath : string;
  qtTranslationsPath : string;
  qtDataPath : string
}.

(** Parsed command line ([args::ArgumentParser]). *)
Record CommandLine := {
  parse_ok : bool;
  pluginType : bool;
  pluginApiVersion : bool;
  appDirPath : option string;
  extraPlugins : list string
}.

(** Everything [main] asks of its surroundings.  [sys_getenv] gives the
    bytes readable from the pointer that [getenv] returns: the value, its
    terminating NUL and what lies behind it in memory.  The reads of the
    file system, of the ELF inspector ([None] is [ElfFileParseError]) and of
    the subprocesses happen before anything is deployed and are functions
    of the installation.

    [bf::is_directory], [bf::is_regular_file] and [bf::exists] ask for the
    status of the path first; when that fails with an error other than
    "no such file" ([ENOENT], [ENOTDIR]), for example [ENAMETOOLONG] or
    [EACCES], they throw [filesystem_error]: [None].

    [PluginsDeployerFactory], [deployTranslations], [createQtConf] and
    [createAppRunHook] belong to the repository but are not among the
    sources; they are parameters here.  The planner binds the paths and the
    module name into deployers and touches no file; a deployer, the
    translations, the deferred operations of the AppDir and the two
    generated files change the bundle and report success or failure. *)
Record System (World Deployer : Type) := {
  sys_getenv : string → option string;
  sys_is_directory : string → option bool;
  sys_is_regular_file : string → option bool;
  sys_exists : string → option bool;
  sys_listSharedLibraries : string → list string;
  sys_traceDynamicDependencies : string → option (list string);
  sys_popen : list string → Popen;
  sys_getDeployers : QtPaths → string → list Deployer;
  sys_deploy : Deployer → World → bool * World;
  sys_deployTranslations : string → list QtModule → World → bool * World;
  sys_executeDeferredOperations : World → bool * World;
  sys_createQtConf : World → bool * World;
  sys_createAppRunHook : World → bool * World
}.

Arguments sys_getenv {World Deployer} _ _.
Arguments sys_is_directory {World Deployer} _ _.
Arguments sys_is_regular_file {World Deployer} _ _.
Arguments sys_exists {World Deployer} _ _.
Arguments sys_listSharedLibraries {World Deployer} _ _.
Arguments sys_traceDynamicDependencies {World Deployer} _ _.
Arguments sys_popen {World Deployer} _ _.
Arguments sys_getDeployers {World Deployer} _ _ _.
Arguments sys_deploy {World Deployer} _ _ _.
Arguments sys_deployTranslations {World Deployer} _ _ _ _.
Arguments sys_executeDeferredOperations {World Deployer} _ _.
Arguments sys_createQtConf {World Deployer} _ _.
Arguments sys_createAppRunHook {World Deployer} _ _.

(** ** linuxdeploy::util::split *)

(** [split(const std::string& s, char delim = ' ')] of the linuxdeploy
    library: the same [getline] loop, with the blank as the delimiter of a
    call that passes none. *)
Definition split_default_delim : ascii := " "%char.

Definition split (s : string) (delim : ascii) : list string :=
  getline_loop EmptyString s delim.

(** [while (path.back() == '\n') path.erase(...)] of [which]; the loop
    ends at the first byte from the end that is no newline, and here also
    when nothing is left. *)
Fixpoint strip_trailing_newlines (path : string) : string :=
  match path with
  | EmptyString => EmptyString
  | String c rest =>
      match strip_trailing_newlines rest with
      | EmptyString =>
          if Ascii.eqb c newline then EmptyString else String c EmptyString
      | kept => String c kept
      end
  end.

(** ** The order of [std::set<std::string>] *)

(** [std::less<std::string>]: the bytes are compared as unsigned
    characters, and a proper prefix comes first. *)
Definition string_le (a b : string) : Prop := String.leb a b = true.

Global Instance string_le_dec a b : Decision (string_le a b).
Proof. unfold string_le. apply _. Defined.

(** The elements of a [std::set<std::string>] from [begin()] to [end()]. *)
Definition set_begin_to_end (names : gset string) : list string :=
  merge_sort string_le (elements names).

(** ** The run of [main] as a computation *)

(** What ends a process that does not return from [main]: a read of
    memory that is not mapped, or an exception that nothing catches. *)
Inductive Fault :=
| memory_fault
| filesystem_error.

Inductive Result (A : Type) :=
| Continue (a : A)
| Exit (code : Z)
| Abort (fault : Fault).

Arguments Continue {A} a.
Arguments Exit {A} code.
Arguments Abort {A} fault.

(** How a run ends. *)
Inductive Termination :=
| Returned (code : Z)
| Killed (fault : Fault).

Global Instance Fault_eq_dec : EqDecision Fault.
Proof. solve_decision. Defined.

Global Instance Termination_eq_dec : EqDecision Termination.
Proof. solve_decision. Defined.

Section Program.

Context {World Deployer : Type}.
Variable QtModules : list QtModule.
Variable sys : System World Deployer.

Record State := {
  world : World;
  trace : list Event
}.

(** A statement of [main]: it changes the state and either falls through
    with a value, leaves [main] with an exit code ([return n;]), or does
    not return at all. *)
Definition M (A : Type) : Type := State → Result A * State.

Definition ret {A} (a : A) : M A := λ st, (Continue a, st).

Definition bind {A B} (m : M A) (k : A → M B) : M B :=
  λ st, match m st with
        | (Continue a, st') => k a st'
        | (Exit code, st') => (Exit code, st')
        | (Abort fault, st') => (Abort fault, st')
        end.

Definition exit {A} (code : Z) : M A := λ st, (Exit code, st).

(** A call that may not return: its value, or the end of the process. *)
Definition attempt {A} (fault : Fault) (call : option A) : M A :=
  λ st, match call with
        | Some a => (Continue a, st)
        | None => (Abort fault, st)
        end.

Definition emit (e : Event) : M unit :=
  λ st, (Continue tt, {| world := world st; trace := trace st ++ [e] |}).

(** A call to a collaborator that changes the bundle and reports
    success. *)
Definition act (f : World → bool * World) (ev : bool → Event) : M bool :=
  λ st, let r := f (world st) in
        (Continue r.1, {| world := r.2; trace := trace st ++ [ev r.1] |}).

Definition when (b : bool) (m : M unit) : M unit :=
  if b then m else ret tt.

Notation "x <- c1 ;; c2" := (bind c1 (λ x, c2))
  (at level 100, c1 at next level, c2 at level 200, right associativity,
   only parsing).
Notation "c1 ;; c2" := (bind c1 (λ _, c2))
  (at level 100, c2 at level 200, right associativity, only parsing).

(** *** util.cpp, the functions that call out *)

(** [check_command]: the child is named by its argument vector, which
    [subprocess::util::join] turns into the command line; each pipe buffer
    is cut at its first NUL. *)
Definition check_command (args : list string) : procOutput :=
  let proc := sys_popen sys args in
  let returnCode := proc_retcode proc in
  {| success := returnCode =? 0;
     retcode := returnCode;
     stdoutOutput := c_text (proc_stdout proc);
     stderrOutput := c_text (proc_stderr proc) |}.

(** [which] *)
Definition which (name : string) : string :=
  let proc := sys_popen sys ["which"; name] in
  if negb (proc_retcode proc =? 0) then EmptyString
  else strip_trailing_newlines (c_text (proc_stdout proc)).

(** [queryQmake] *)
Definition queryQmake (qmakePath : string) : M (gmap string string) :=
  let qmakeCall := check_command [qmakePath; "-query"] in
  if negb (success qmakeCall) then
    emit (EvLog LD_ERROR ["Call to qmake failed:"; stderrOutput qmakeCall]) ;;
    ret ∅
  else ret (parseQmakeOutput (stdoutOutput qmakeCall)).

(** The map that [queryQmake] returns, without its log line. *)
Definition queryQmake_value (qmakePath : string) : gmap string string :=
  let qmakeCall := check_command [qmakePath; "-query"] in
  if negb (success qmakeCall) then ∅
  else parseQmakeOutput (stdoutOutput qmakeCall).

(** [findQmake] *)
Definition findQmake : string :=
  match sys_getenv sys "QMAKE" with
  | Some data => c_text data
  | None =>
      let qmakePath := which "qmake-qt5" in
      match qmakePath with
      | EmptyString => which "qmake"
      | _ => qmakePath
      end
  end.

(** *** main.cpp *)

(** [if (bf::is_regular_file(libraryName)) libraryName = ...filename()];
    [None] when [bf::is_regular_file] throws. *)
Definition filename_if_regular_file (libraryName : string) : option string :=
  is_file ← sys_is_regular_file sys libraryName;
  Some (if is_file : bool then path_filename libraryName else libraryName).

(** The comparisons of the lambda [matchesQtModule], on the candidate that
    the first statement of the lambda leaves behind. *)
Definition matches_name (libraryName : string) (module : QtModule) : bool :=
  let libraryPrefix := libraryFilePrefix module +:+ "." in
  if strncmp (c_str libraryName) (c_str libraryPrefix)
             (String.length libraryPrefix) =? 0
  then true
  else if strcmp (c_str libraryName) (c_str (name module)) =? 0
  then true
  else false.

(** The lambda [matchesQtModule]; [None] when it throws. *)
Definition matchesQtModule (libraryName : string) (module : QtModule)
  : option bool :=
  libraryName ← filename_if_regular_file libraryName;
  Some (matches_name libraryName module).

(** [std::find_if(names.begin(), names.end(), ...) != names.end()]: the
    names are tried in order up to the first that matches. *)
Fixpoint matchesAny (names : list string) (module : QtModule) : option bool :=
  match names with
  | [] => Some false
  | libraryName :: rest =>
      matched ← matchesQtModule libraryName module;
      if matched : bool then Some true else matchesAny rest module
  end.

(** [std::copy_if(first, last, ...)] over a range of the catalog: the
    entries that some name of the list matches, in catalog order. *)
Fixpoint copy_if (catalog : list QtModule) (names : list string)
  : option (list QtModule) :=
  match catalog with
  | [] => Some []
  | module :: rest =>
      matched ← matchesAny names module;
      copied ← copy_if rest names;
      Some (if matched : bool then module :: copied else copied)
  end.

(** [std::copy_if(QtModules.begin(), QtModules.end(), ...)] *)
Definition copy_if_matches (names : list string) : option (list QtModule) :=
  copy_if QtModules names.

(** The loop that fills [libraryNames]; a library that fails to parse as
    an ELF file contributes its own file name only. *)
Definition collectLibraryNames (appDir : string) : gset string :=
  foldl (λ libraryNames path,
           let libraryNames := {[ path_filename path ]} ∪ libraryNames in
           match sys_traceDynamicDependencies sys path with
           | Some dependencies =>
               foldl (λ libraryNames dependency,
                        {[ path_filename dependency ]} ∪ libraryNames)
                     libraryNames dependencies
           | None => libraryNames
           end)
        ∅ (sys_listSharedLibraries sys appDir).

Definition foundQtModules (libraryNames : gset string)
  : option (list QtModule) :=
  copy_if_matches (set_begin_to_end libraryNames).

(** [split(std::string(extraPluginsFromEnvData, ';'))]: the second
    argument of the [std::string] constructor is a length, so the
    character [';'] is the length 59, and [split] gets no delimiter.
    [None] when fewer than 59 bytes are readable. *)
Definition extraPluginsFromEnv : option (list string) :=
  match sys_getenv sys "EXTRA_QT_PLUGINS" with
  | Some extraPluginsFromEnvData =>
      buffer ← string_of_buffer extraPluginsFromEnvData (nat_of_ascii ";"%char);
      Some (split buffer split_default_delim)
  | None => Some []
  end.

(** The loop over the two token lists; each appends its matches to
    [extraQtModules]. *)
Fixpoint extraQtModules_of (extraQtModules : list QtModule)
         (pluginsLists : list (list string)) : option (list QtModule) :=
  match pluginsLists with
  | [] => Some extraQtModules
  | pluginsList :: rest =>
      copied ← copy_if_matches pluginsList;
      extraQtModules_of (extraQtModules ++ copied) rest
  end.

(** The extra list of a run that gets as far as computing it. *)
Definition extraQtModules (cli : CommandLine) : option (list QtModule) :=
  extraPluginsFromEnv ← extraPluginsFromEnv;
  extraQtModules_of [] [extraPlugins cli; extraPluginsFromEnv].

(** [qmakeVars[key]]: a key that is absent reads as the empty string. *)
Definition at_key (qmakeVars : gmap string string) (key : string) : string :=
  default EmptyString (qmakeVars !! key).

(** What [operator<<] appends for [getenv(variable)]. *)
Definition getenv_text (variable : string) : string :=
  match sys_getenv sys variable with
  | Some data => c_text data
  | None => EmptyString
  end.

(** The inner loop over the deployers of one module. *)
Fixpoint deployAll (module_name : string) (index : nat)
         (deployers : list Deployer) : M unit :=
  match deployers with
  | [] => ret tt
  | deployer :: rest =>
      ok <- act (sys_deploy sys deployer) (EvDeploy module_name index) ;;
      if negb ok then exit 1
      else deployAll module_name (S index) rest
  end.

(** The loop over [qtModulesToDeploy]. *)
Fixpoint deployModules (factory : QtPaths) (modules : list QtModule)
  : M unit :=
  match modules with
  | [] => ret tt
  | module :: rest =>
      emit (EvModule (name module)) ;;
      deployAll (name module) 0
                (sys_getDeployers sys factory (name module)) ;;
      deployModules factory rest
  end.

Definition qtModulesToDeploy (found extra : list QtModule) : list QtModule :=
  found ++ extra.

(** [main] from the loop over [qtModulesToDeploy] to its end. *)
Definition deployment (factory : QtPaths) (modules : list QtModule) : M Z :=
  deployModules factory modules ;;
  ok <- act (sys_deployTranslations sys (qtTranslationsPath factory) modules)
            EvDeployTranslations ;;
  when (negb ok)
       (emit (EvLog LD_ERROR ["Failed to deploy translations"]) ;; exit 1) ;;
  ok <- act (sys_executeDeferredOperations sys) EvDeferredOperations ;;
  when (negb ok)
       (emit (EvLog LD_ERROR ["Failed to execute deferred operations"]) ;;
        exit 1) ;;
  ok <- act (sys_createQtConf sys) EvQtConf ;;
  when (negb ok)
       (emit (EvLog LD_ERROR ["Failed to create qt.conf in AppDir"]) ;;
        exit 1) ;;
  ok <- act (sys_createAppRunHook sys) EvAppRunHook ;;
  when (negb ok)
       (emit (EvLog LD_ERROR ["Failed to create AppRun hook in AppDir"]) ;;
        exit 1) ;;
  ret 0.

(** The factory that [main] builds from the lookup. *)
Definition factory_of (qmakeVars : gmap string string) : QtPaths :=
  {| qtPluginsPath := at_key qmakeVars "QT_INSTALL_PLUGINS";
     qtLibexecsPath := at_key qmakeVars "QT_INSTALL_LIBEXECS";
     qtInstallQmlPath := at_key qmakeVars "QT_INSTALL_QML";
     qtTranslationsPath := at_key qmakeVars "QT_INSTALL_TRANSLATIONS";
     qtDataPath := at_key qmakeVars "QT_INSTALL_DATA" |}.

(** [main].  The verbosity switch of [$DEBUG] and the log lines below
    warning level, the module headers apart, leave no event. *)
Definition main (cli : CommandLine) : M Z :=
  when (negb (parse_ok cli)) (emit EvUsage ;; exit 1) ;;
  when (pluginType cli) (emit (EvStdout "input") ;; exit 0) ;;
  when (pluginApiVersion cli) (emit (EvStdout "0") ;; exit 0) ;;
  match appDirPath cli with
  | None =>
      emit (EvLog LD_ERROR ["--appdir parameter required"]) ;;
      emit EvUsage ;;
      exit 1
  | Some appDir =>
      is_directory <- attempt filesystem_error (sys_is_directory sys appDir) ;;
      when (negb is_directory)
           (emit (EvLog LD_ERROR ["No such directory:"; appDir]) ;; exit 1) ;;
      when (bool_decide (is_Some (sys_getenv sys "DISABLE_COPYRIGHT_FILES_DEPLOYMENT")))
           (emit (EvLog LD_WARNING ["Copyright files deployment disabled"]) ;;
            emit EvDisableCopyrightFiles) ;;
      let libraryNames := collectLibraryNames appDir in
      found <- attempt filesystem_error (foundQtModules libraryNames) ;;
      extraPluginsFromEnv <- attempt memory_fault extraPluginsFromEnv ;;
      extra <- attempt filesystem_error
                 (extraQtModules_of [] [extraPlugins cli; extraPluginsFromEnv]) ;;
      when (bool_decide (found = []) && bool_decide (extra = []))
           (emit (EvLog LD_ERROR ["Could not find Qt modules to deploy"]) ;;
            exit 1) ;;
      let qmakePath := findQmake in
      when (bool_decide (qmakePath = EmptyString))
           (emit (EvLog LD_ERROR
                    ["Could not find qmake, please install or provide path using $QMAKE"]) ;;
            exit 1) ;;
      qmake_exists <- attempt filesystem_error (sys_exists sys qmakePath) ;;
      when (negb qmake_exists)
           (emit (EvLog LD_ERROR ["No such file or directory:"; qmakePath]) ;;
            exit 1) ;;
      qmakeVars <- queryQmake qmakePath ;;
      when (bool_decide (qmakeVars = ∅))
           (emit (EvLog LD_ERROR ["Failed to query Qt paths using qmake -query"]) ;;
            exit 1) ;;
      let factory := factory_of qmakeVars in
      let qtBinsPath := at_key qmakeVars "QT_INSTALL_BINS" in
      let qtLibsPath := at_key qmakeVars "QT_INSTALL_LIBS" in
      emit (EvSetenv "LD_LIBRARY_PATH"
              (qtLibsPath +:+ ":" +:+ getenv_text "LD_LIBRARY_PATH")) ;;
      emit (EvSetenv "PATH" (qtBinsPath +:+ ":" +:+ getenv_text "PATH")) ;;
      deployment factory (qtModulesToDeploy found extra)
  end.

(** How a whole run from world [w] ends, and its trace. *)
Definition termination (r : Result Z) : Termination :=
  match r with
  | Continue code => Returned code
  | Exit code => Returned code
  | Abort fault => Killed fault
  end.

Definition run_main (cli : CommandLine) (w : World)
  : Termination * list Event :=
  let r := main cli {| world := w; trace := [] |} in
  (termination r.1, trace r.2).

End Program.

Arguments world {World} _.
Arguments trace {World} _.

(** ** Reading a trace *)

(** The names of the modules whose deployment was started, in order. *)
Fixpoint module_headers (events : list Event) : list string :=
  match events with
  | [] => []
  | EvModule module_name :: rest => module_name :: module_headers rest
  | _ :: rest => module_headers rest
  end.

(** The events of the deployment phase: a module header, a deployer run, the
    translations, the deferred operations and the two generated files. *)
Definition deployment_event (e : Event) : bool :=
  match e with
  | EvModule _ | EvDeploy _ _ _ | EvDeployTranslations _
  | EvDeferredOperations _ | EvQtConf _ | EvAppRunHook _ => true
  | _ => false
  end.

Definition no_deployment (events : list Event) : Prop :=
  Forall (λ e, deployment_event e = false) events.

(** A module header or a deployer that reported success. *)
Definition deploy_progress (e : Event) : Prop :=
  match e with
  | EvModule _ | EvDeploy _ _ true => True
  | _ => False
  end.

Definition nothing_to_deploy_error : Event :=
  EvLog LD_ERROR ["Could not find Qt modules to deploy"].

(** The events that follow the loop over the modules: the four closing
    stages and their error lines. *)
Definition after_loop_event (e : Event) : bool :=
  match e with
  | EvDeployTranslations _ | EvDeferredOperations _
  | EvQtConf _ | EvAppRunHook _ => true
  | EvLog LD_ERROR [msg] =>
      bool_decide (msg ∈ ["Failed to deploy translations";
                          "Failed to execute deferred operations";
                          "Failed to create qt.conf in AppDir";
                          "Failed to create AppRun hook in AppDir"])
  | _ => false
  end.

(** The events of a complete deployment after its loop. *)
Definition closing_events : list Event :=
  [EvDeployTranslations true; EvDeferredOperations true;
   EvQtConf true; EvAppRunHook true].

(** How often a module occurs in a list. *)
Definition occurrences (module : QtModule) (modules : list QtModule) : nat :=
  count_occ QtModule_eq_dec modules module.

(** The state after some more events. *)
Definition logged {World} (st : @State World) (events : list Event) : @State World :=
  {| world := world st; trace := trace st ++ events |}.

(** The events that a step from [st] to [st'] has added. *)
Definition new_events {World} (st st' : @State World) : list Event :=
  drop (length (trace st)) (trace st').

(** The command line and the bundle directory let [main] get as far as the
    resolution of the modules. *)
Definition reaches_resolution {World Deployer} (sys : System World Deployer)
           (cli : CommandLine) (appDir : string) : Prop :=
  parse_ok cli = true ∧ pluginType cli = false ∧ pluginApiVersion cli = false
  ∧ appDirPath cli = Some appDir ∧ sys_is_directory sys appDir = Some true.

(** ** The steps of [main] after the resolution

    What [main] does from the check of the two lists on, written out guard
    by guard with the events of each way out; the lemma [main_run] below
    proves that [main] takes these steps. *)

Section Steps.

Context {World Deployer : Type}.
Variable sys : System World Deployer.

(** [main] from the query of the lookup on, for a run that got there. *)
Definition main_after_checks (st : @State World)
           (copyright : list Event) (found extra : list QtModule)
  : Result Z * @State World :=
  let qmakeCall := check_command sys [findQmake sys; "-query"] in
  let query :=
    if negb (success qmakeCall)
    then [EvLog LD_ERROR ["Call to qmake failed:"; stderrOutput qmakeCall]]
    else [] in
  let qmakeVars := queryQmake_value sys (findQmake sys) in
  if bool_decide (qmakeVars = ∅) then
    (Exit 1, logged st (copyright ++ query ++
       [EvLog LD_ERROR ["Failed to query Qt paths using qmake -query"]]))
  else
    deployment sys (factory_of qmakeVars) (qtModulesToDeploy found extra)
      (logged st (copyright ++ query ++
         [EvSetenv "LD_LIBRARY_PATH"
            (at_key qmakeVars "QT_INSTALL_LIBS" +:+ ":"
             +:+ getenv_text sys "LD_LIBRARY_PATH");
          EvSetenv "PATH"
            (at_key qmakeVars "QT_INSTALL_BINS" +:+ ":"
             +:+ getenv_text sys "PATH")])).

(** [main] from the check of the two lists on. *)
Definition main_after_resolution (st : @State World)
           (copyright : list Event) (found extra : list QtModule)
  : Result Z * @State World :=
  if bool_decide (found = []) && bool_decide (extra = []) then
    (Exit 1, logged st (copyright ++ [nothing_to_deploy_error]))
  else if bool_decide (findQmake sys = EmptyString) then
    (Exit 1, logged st (copyright ++
       [EvLog LD_ERROR
          ["Could not find qmake, please install or provide path using $QMAKE"]]))
  else
    match sys_exists sys (findQmake sys) with
    | None => (Abort filesystem_error, logged st copyright)
    | Some false =>
        (Exit 1, logged st (copyright ++
           [EvLog LD_ERROR ["No such file or directory:"; findQmake sys]]))
    | Some true => main_after_checks st copyright found extra
    end.

(** The events of the switch that disables the copyright files. *)
Definition copyright_events : list Event :=
  if bool_decide (is_Some (sys_getenv sys "DISABLE_COPYRIGHT_FILES_DEPLOYMENT"))
  then [EvLog LD_WARNING ["Copyright files deployment disabled"];
        EvDisableCopyrightFiles]
  else [].

End Steps.

(** ** A concrete installation for the examples *)

Module Sample.

Definition nul : string := String NUL EmptyString.
Definition nl : string := String newline EmptyString.

(** Modelled from the spec: qt-modules.h is not among the sources; these
    are catalog entries for the modules that the spec names in its
    examples, the web engine pair in the order that keeps the longer
    prefix first. *)
Definition sqlite : QtModule :=
  {| name := "sqlite"; libraryFilePrefix := "libqsqlite" |}.
Definition webenginecore : QtModule :=
  {| name := "webenginecore"; libraryFilePrefix := "libQt5WebEngineCore" |}.
Definition webengine : QtModule :=
  {| name := "webengine"; libraryFilePrefix := "libQt5WebEngine" |}.
Definition widgets : QtModule :=
  {| name := "widgets"; libraryFilePrefix := "libQt5Widgets" |}.

Definition catalog : list QtModule :=
  [sqlite; webenginecore; webengine; widgets].

(** The output of [qmake -query] with the seven directories. *)
Definition qmake_output : string :=
  "QT_INSTALL_PLUGINS:/opt/qt/plugins" +:+ nl +:+
  "QT_INSTALL_LIBEXECS:/opt/qt/libexec" +:+ nl +:+
  "QT_INSTALL_DATA:/opt/qt" +:+ nl +:+
  "QT_INSTALL_TRANSLATIONS:/opt/qt/translations" +:+ nl +:+
  "QT_INSTALL_BINS:/opt/qt/bin" +:+ nl +:+
  "QT_INSTALL_LIBS:/opt/qt/lib" +:+ nl +:+
  "QT_INSTALL_QML:/opt/qt/qml" +:+ nl.

(** An output that names none of the seven directories. *)
Definition qmake_output_version_only : string :=
  "QT_VERSION:5.15.2" +:+ nl.

(** The memory behind the pointer that [getenv] returns for a variable of
    value [value]: the terminator, then the entries that follow it in the
    environment block. *)
Definition env_memory (value : string) : string :=
  value +:+ nul +:+ "HOME=/root" +:+ nul +:+
  "PATH=/usr/local/bin:/usr/bin:/bin" +:+ nul +:+
  "LANG=C.UTF-8" +:+ nul +:+ "SHELL=/bin/sh" +:+ nul.

Definition env_unset : string → option string := λ _, None.

Definition env_extra_plugins (value : string) : string → option string :=
  λ variable,
    if bool_decide (variable = "EXTRA_QT_PLUGINS") then Some (env_memory value)
    else None.

(** A machine whose bundle is the directory ["AppDir"], where
    [qmake-qt5] is on the search path, where every status query succeeds,
    and where a deployer is just the answer it will give. *)
Definition system (getenv : string → option string)
           (regular_files libraries : list string) (qmake_stdout : string)
           (deployers : string → list bool) : System unit bool :=
  {| sys_getenv := getenv;
     sys_is_directory := λ path, Some (bool_decide (path = "AppDir"));
     sys_is_regular_file := λ path, Some (bool_decide (path ∈ regular_files));
     sys_exists := λ path, Some (bool_decide (path = "/usr/bin/qmake-qt5"));
     sys_listSharedLibraries := λ _, libraries;
     sys_traceDynamicDependencies := λ _, Some [];
     sys_popen := λ args,
       if bool_decide (args = ["which"; "qmake-qt5"]) then
         {| proc_retcode := 0;
            proc_stdout := "/usr/bin/qmake-qt5" +:+ nl;
            proc_stderr := EmptyString |}
       else if bool_decide (args = ["/usr/bin/qmake-qt5"; "-query"]) then
         {| proc_retcode := 0; proc_stdout := qmake_stdout; proc_stderr := EmptyString |}
       else {| proc_retcode := 1; proc_stdout := EmptyString; proc_stderr := EmptyString |};
     sys_getDeployers := λ _ module_name, deployers module_name;
     sys_deploy := λ deployer w, (deployer, w);
     sys_deployTranslations := λ _ _ w, (true, w);
     sys_executeDeferredOperations := λ w, (true, w);
     sys_createQtConf := λ w, (true, w);
     sys_createAppRunHook := λ w, (true, w) |}.

Definition command_line (plugins : list string) : CommandLine :=
  {| parse_ok := true;
     pluginType := false;
     pluginApiVersion := false;
     appDirPath := Some "AppDir";
     extraPlugins := plugins |}.

(** Every module has one deployer, and it succeeds. *)
Definition one_deployer : string → list bool := λ _, [true].

(** The deployer of [failing] fails, the others succeed. *)
Definition failing_deployer (failing : string) : string → list bool :=
  λ module_name, [negb (bool_decide (module_name = failing))].

(** The initial state of a run. *)
Definition start : @State unit := {| world := tt; trace := [] |}.

(** A bundle without Qt libraries, nothing in the environment. *)
Definition sys_empty_bundle : System unit bool :=
  system env_unset [] [] qmake_output one_deployer.

(** The empty bundle with [EXTRA_QT_PLUGINS=sqlite;webenginecore]. *)
Definition sys_env_list : System unit bool :=
  system (env_extra_plugins "sqlite;webenginecore") [] [] qmake_output
         one_deployer.

(** A bundle that links the widgets library. *)
Definition widgets_bundle : list string :=
  ["/AppDir/usr/lib/libQt5Widgets.so.5"; "/AppDir/usr/lib/libQt5Core.so.5"].

Definition sys_widgets : System unit bool :=
  system env_unset [] widgets_bundle qmake_output one_deployer.

(** The same bundle with [EXTRA_QT_PLUGINS=widgets]. *)
Definition sys_widgets_env : System unit bool :=
  system (env_extra_plugins "widgets") [] widgets_bundle qmake_output
         one_deployer.

(** The same bundle where [qmake -query] names no directory. *)
Definition sys_version_only : System unit bool :=
  system env_unset [] widgets_bundle qmake_output_version_only one_deployer.

(** The same bundle where [qmake -query] prints nothing. *)
Definition sys_qmake_silent : System unit bool :=
  system env_unset [] widgets_bundle EmptyString one_deployer.

(** The same bundle where the deployer of [webengine] fails. *)
Definition sys_webengine_fails : System unit bool :=
  system env_unset [] widgets_bundle qmake_output (failing_deployer "webengine").

End Sample.

(** ** util.h and util.cpp, the functions outside the run of [main] *)

(** [join(beg, end)] of util.h, which both overloads of [join] call: the
    first string, then a blank and the string for every further one. *)
Definition join (list : list string) : string :=
  match list with
  | [] => EmptyString
  | first :: rest => foldl (λ rv s, rv +:+ " " +:+ s) first rest
  end.

(** What [boost::filesystem::path] offers to [pathContainsFile]: the
    sequence of elements between [begin()] and [end()], [filename()],
    [has_filename()] and [remove_filename()].  They are parameters, the
    function is read against them. *)
Record PathLibrary := {
  path_elements : string → list string;
  path_name : string → string;
  path_has_filename : string → bool;
  path_remove_filename : string → string
}.

(** [std::equal(first1, last1, first2)]: it reads one element of the second
    range for every element of the first; [None] when the second range ends
    before the first. *)
Fixpoint std_equal (range1 range2 : list string) : option bool :=
  match range1, range2 with
  | [], _ => Some true
  | x :: rest1, y :: rest2 =>
      if bool_decide (x = y) then std_equal rest1 rest2 else Some false
  | _ :: _, [] => None
  end.

(** [pathContainsFile]; [None] when the assertion fails or a range is
    overrun. *)
Definition pathContainsFile (lib : PathLibrary) (dir file : string)
  : option bool :=
  let dir :=
    if bool_decide (path_name lib dir = ".") then path_remove_filename lib dir
    else dir in
  if negb (path_has_filename lib file) then None
  else
    let file := path_remove_filename lib file in
    let dir_len := length (path_elements lib dir) in
    let file_len := length (path_elements lib file) in
    if (file_len <? dir_len)%nat then Some false
    else std_equal (path_elements lib dir) (path_elements lib file).

(** ** Notions for the further properties *)

(** The byte [c] occurs in [s]. *)
Fixpoint has_char (c : ascii) (s : string) : bool :=
  match s with
  | EmptyString => false
  | String a rest => Ascii.eqb a c || has_char c rest
  end.

(** [s] without its last byte when that byte is [c]. *)
Fixpoint chop (c : ascii) (s : string) : string :=
  match s with
  | EmptyString => EmptyString
  | String a EmptyString => if Ascii.eqb a c then EmptyString else s
  | String a rest => String a (chop c rest)
  end.

(** [n] newlines. *)
Fixpoint newlines (n : nat) : string :=
  match n with
  | O => EmptyString
  | S n' => String newline (newlines n')
  end.

(** The output of [qmake -query] for a list of entries: one line
    [key:value] for each. *)
Definition query_line (entry : string * string) : string :=
  entry.1 +:+ ":" +:+ entry.2 +:+ String newline EmptyString.

Fixpoint query_output (entries : list (string * string)) : string :=
  match entries with
  | [] => EmptyString
  | entry :: rest => query_line entry +:+ query_output rest
  end.

(** A key or a value that a line of the output can carry. *)
Definition plain (s : string) : Prop :=
  has_char ":" s = false ∧ has_char newline s = false.

(** The events of the deployers of one module when all of them succeed,
    numbered from [index], and the events of the loop over the modules when
    every deployer succeeds. *)
Fixpoint deployer_events {Deployer} (module_name : string) (index : nat)
         (deployers : list Deployer) : list Event :=
  match deployers with
  | [] => []
  | _ :: rest =>
      EvDeploy module_name index true
      :: deployer_events module_name (S index) rest
  end.

Fixpoint module_events {Deployer} (deployers_of : string → list Deployer)
         (modules : list QtModule) : list Event :=
  match modules with
  | [] => []
  | module :: rest =>
      EvModule (name module)
      :: deployer_events (name module) 0 (deployers_of (name module))
      ++ module_events deployers_of rest
  end.

Definition is_deferred (e : Event) : bool :=
  match e with
  | EvDeferredOperations _ => true
  | _ => false
  end.

(** A path library for the examples: the decomposition that
    [boost::filesystem::path] gives on POSIX.  The elements of a path are
    the names between its separators, runs of separators counting once;
    before them ["/"] for a path that begins with a separator, or the
    network name and then ["/"] for a path that begins with exactly two;
    after them ["."] for a path that ends in a separator behind a name.
    [filename()] is the last element; [remove_filename()] leaves a path
    whose elements are the elements but the last (repeated separators of
    the original are not kept in its text). *)
Module SamplePaths.

Definition names (p : string) : list string :=
  filter (λ part, part ≠ EmptyString) (stringSplit p "/").

Definition trailing_dot (p : string) (before : list string) : list string :=
  if strEndsWith p "/" && negb (bool_decide (before = [])) then ["."] else [].

Definition elements (p : string) : list string :=
  if strStartsWith p "//" && negb (strStartsWith p "///") then
    match names p with
    | [] => ["//"]
    | net :: more =>
        ("//" +:+ net)
        :: (if has_char "/" (advance p 2) then "/" :: more ++ trailing_dot p more
            else [])
    end
  else if strStartsWith p "/" then "/" :: names p ++ trailing_dot p (names p)
  else names p ++ trailing_dot p (names p).

(** The text of a path with the given elements. *)
Fixpoint text_of (elements : list string) : string :=
  match elements with
  | [] => EmptyString
  | [element] => element
  | element :: rest =>
      if strStartsWith element "/" then element +:+ text_of rest
      else element +:+ "/" +:+ text_of rest
  end.

Definition library : PathLibrary :=
  {| path_elements := elements;
     path_name := λ p, default EmptyString (last (elements p));
     path_has_filename := λ p, negb (bool_decide (p = EmptyString));
     path_remove_filename := λ p, text_of (removelast (elements p)) |}.

End SamplePaths.

(** Installations on which a run fails. *)
Module SampleFailures.

Definition qmake_complaint : string :=
  "qmake: could not find a Qt installation of ''" +:+ Sample.nl.

(** A machine like [Sample.sys_widgets] whose [qmake -query] exits with
    status 1 after printing on both of its streams. *)
Definition sys_qmake_fails : System unit bool :=
  {| sys_getenv := Sample.env_unset;
     sys_is_directory := λ path, Some (bool_decide (path = "AppDir"));
     sys_is_regular_file := λ _, Some false;
     sys_exists := λ path, Some (bool_decide (path = "/usr/bin/qmake-qt5"));
     sys_listSharedLibraries := λ _, Sample.widgets_bundle;
     sys_traceDynamicDependencies := λ _, Some [];
     sys_popen := λ args,
       if bool_decide (args = ["which"; "qmake-qt5"]) then
         {| proc_retcode := 0;
            proc_stdout := "/usr/bin/qmake-qt5" +:+ Sample.nl;
            proc_stderr := EmptyString |}
       else
         {| proc_retcode := 1;
            proc_stdout := Sample.qmake_output;
            proc_stderr := qmake_complaint |};
     sys_getDeployers := λ _ _, [true];
     sys_deploy := λ deployer w, (deployer, w);
     sys_deployTranslations := λ _ _ w, (true, w);
     sys_executeDeferredOperations := λ w, (true, w);
     sys_createQtConf := λ w, (true, w);
     sys_createAppRunHook := λ w, (true, w) |}.

(** [n] times the byte [c]. *)
Fixpoint fill (c : ascii) (n : nat) : string :=
  match n with
  | O => EmptyString
  | S n' => String c (fill c n')
  end.

(** A name of 300 bytes. *)
Definition long_token : string := fill "a" 300.

(** The status of a path with a name of more than 255 bytes fails with
    [ENAMETOOLONG]. *)
Definition name_too_long (path : string) : bool :=
  existsb (λ part, (255 <? String.length part)%nat) (stringSplit path "/").

(** The machine [sys] with a file system that has this limit. *)
Definition with_name_limit (sys : System unit bool) : System unit bool :=
  {| sys_getenv := sys_getenv sys;
     sys_is_directory := λ path,
       if name_too_long path then None else sys_is_directory sys path;
     sys_is_regular_file := λ path,
       if name_too_long path then None else sys_is_regular_file sys path;
     sys_exists := λ path,
       if name_too_long path then None else sys_exists sys path;
     sys_listSharedLibraries := sys_listSharedLibraries sys;
     sys_traceDynamicDependencies := sys_traceDynamicDependencies sys;
     sys_popen := sys_popen sys;
     sys_getDeployers := sys_getDeployers sys;
     sys_deploy := sys_deploy sys;
     sys_deployTranslations := sys_deployTranslations sys;
     sys_executeDeferredOperations := sys_executeDeferredOperations sys;
     sys_createQtConf := sys_createQtConf sys;
     sys_createAppRunHook := sys_createAppRunHook sys |}.

Definition sys_name_limit : System unit bool :=
  with_name_limit Sample.sys_widgets.

(** [EXTRA_QT_PLUGINS=widgets] as the last but one entry of the
    environment block, with 22 readable bytes behind the pointer. *)
Definition env_short_memory : string → option string :=
  λ variable,
    if bool_decide (variable = "EXTRA_QT_PLUGINS")
    then Some ("widgets" +:+ Sample.nul +:+ "SHELL=/bin/sh" +:+ Sample.nul)
    else None.

Definition sys_short_memory : System unit bool :=
  Sample.system env_short_memory [] Sample.widgets_bundle Sample.qmake_output
                Sample.one_deployer.

End SampleFailures.

(** * Properties *)

(** ** C strings *)

Section CStringFacts.

Lemma uchar_inj c1 c2 : uchar c1 = uchar c2 → c1 = c2.
Proof.
  unfold uchar. intros H. apply Nat2Z.inj in H.
  rewrite <- (ascii_nat_embedding c1), <- (ascii_nat_embedding c2).
  by rewrite H.
Qed.

Lemma uchar_diff c1 c2 : c1 ≠ c2 → uchar c1 - uchar c2 ≠ 0.
Proof. intros Hne Hz. apply Hne, uchar_inj. lia. Qed.

Lemma nul_freeb_spec s : nul_freeb s = true ↔ nul_free s.
Proof.
  induction s as [|c t IH]; simpl; [done|].
  rewrite andb_true_iff, negb_true_iff, Ascii.eqb_neq, IH. done.
Qed.

Lemma nul_free_app s t : nul_free (s +:+ t) ↔ nul_free s ∧ nul_free t.
Proof. induction s as [|c s IH]; simpl; [tauto | rewrite IH; tauto]. Qed.

Lemma is_prefixb_spec p s : is_prefixb p s = true ↔ is_prefix p s.
Proof.
  revert s. induction p as [|a p IH]; intros s; simpl.
  - split; [intros _; by exists s | done].
  - destruct s as [|b s].
    + split; [done | intros [rest H]; discriminate].
    + rewrite andb_true_iff, Ascii.eqb_eq, IH. split.
      * intros [-> [rest ->]]. by exists rest.
      * intros [rest H]. simpl in H. injection H as -> ->.
        split; [done | by exists rest].
Qed.

Lemma is_prefix_cons a p b s :
  is_prefix (String a p) (String b s) ↔ a = b ∧ is_prefix p s.
Proof.
  split.
  - intros [rest H]. simpl in H. injection H as -> ->.
    split; [done | by exists rest].
  - intros [-> [rest ->]]. by exists rest.
Qed.

Lemma is_prefix_empty_r a p : ¬ is_prefix (String a p) EmptyString.
Proof. intros [rest H]. discriminate. Qed.

Lemma is_prefix_length p s :
  is_prefix p s → (String.length p ≤ String.length s)%nat.
Proof.
  intros [rest ->]. induction p as [|a p IH]; simpl; lia.
Qed.

(** Without a NUL in [p], [strncmp] over the length of [p] is the prefix
    test. *)
Lemma strncmp_prefix p :
  nul_free p →
  ∀ s, strncmp (c_str s) (c_str p) (String.length p) = 0 ↔ is_prefix p s.
Proof.
  unfold c_str. induction p as [|c p IH]; intros Hp s.
  - simpl. split; [intros _; by exists s | done].
  - destruct Hp as [Hc Hp]. cbn [String.length strncmp deref next].
    destruct s as [|b s]; cbn [deref next].
    + destruct (Ascii.eqb_spec NUL c) as [<-|Hne]; [done|]. simpl negb. cbv iota.
      split; [intros H; by apply uchar_diff in H | intros H; by apply is_prefix_empty_r in H].
    + destruct (Ascii.eqb_spec b c) as [->|Hne]; simpl negb; cbv iota.
      * destruct (Ascii.eqb_spec c NUL) as [->|_]; [done|].
        rewrite IH by done. rewrite is_prefix_cons. tauto.
      * split; [intros H; by apply uchar_diff in H|].
        rewrite is_prefix_cons. intros [-> _]. done.
Qed.

(** A prefix always passes, NUL or not. *)
Lemma strncmp_of_prefix p rest :
  strncmp (c_str (p +:+ rest)) (c_str p) (String.length p) = 0.
Proof.
  unfold c_str. induction p as [|c p IH]; [done|].
  simpl. rewrite Ascii.eqb_refl. simpl.
  by destruct (Ascii.eqb c NUL).
Qed.


(** What [strcmp] compares in general: the texts before the first NUL. *)
Lemma strcmp_c_text s t :
  strcmp (c_str s) (c_str t) = 0 ↔ c_text s = c_text t.
Proof.
  unfold c_str. revert t. induction s as [|c s IH]; intros t.
  - cbn [strcmp c_text]. destruct t as [|b t]; cbn [deref c_text]; [done|].
    destruct (Ascii.eqb_spec b NUL) as [->|Hne]; [done|].
    split; [|done]. intros H. exfalso. apply Hne. apply uchar_inj.
    change (uchar NUL) with 0 in *. lia.
  - cbn [strcmp c_text]. destruct t as [|b t]; cbn [deref next c_text].
    + destruct (Ascii.eqb_spec c NUL) as [->|Hne]; [done|]. simpl negb. cbv iota.
      split; [intros H; by apply uchar_diff in H | done].
    + destruct (Ascii.eqb_spec c b) as [->|Hne]; simpl negb; cbv iota.
      * destruct (Ascii.eqb_spec b NUL) as [->|_]; [done|].
        rewrite IH. split; [by intros -> | by intros [= ->]].
      * split; [intros H; by apply uchar_diff in H|].
        destruct (Ascii.eqb_spec c NUL) as [->|Hc];
          destruct (Ascii.eqb_spec b NUL) as [->|Hb]; try done.
        by intros [= -> _].
Qed.

End CStringFacts.

(** ** strStartsWith *)

Lemma strncmp_zero_c_text p :
  ∀ s, strncmp (c_str s) (c_str p) (String.length p) = 0 → is_prefix (c_text p) s.
Proof.
  unfold c_str. induction p as [|c p IH]; intros s.
  - intros _. by exists s.
  - cbn [String.length strncmp deref next c_text].
    destruct (Ascii.eqb_spec c NUL) as [->|Hc]; [intros _; by exists s|].
    destruct s as [|b s]; cbn [deref next].
    + destruct (Ascii.eqb_spec NUL c) as [<-|Hne]; [done|]. simpl negb. cbv iota.
      intros H. by apply uchar_diff in H.
    + destruct (Ascii.eqb_spec b c) as [->|Hne]; simpl negb; cbv iota.
      * destruct (Ascii.eqb_spec c NUL) as [->|_]; [done|].
        intros H. apply is_prefix_cons. split; [done | by apply IH].
      * intros H. by apply uchar_diff in H.
Qed.

(** C10, as amended: for every [str] and every [prefix] without a NUL byte,
    [strStartsWith str prefix] is true exactly when [prefix] is an initial
    segment of [str].  For every pair of strings: a prefix always passes; a
    true answer says that the bytes of [prefix] before its first NUL begin
    [str]; a [str] shorter than [prefix] is rejected; the empty prefix is
    accepted.  The function is total. *)
Theorem strStartsWith_spec (str prefix : string) :
  (nul_free prefix → (strStartsWith str prefix = true ↔ is_prefix prefix str))
  ∧ (is_prefix prefix str → strStartsWith str prefix = true)
  ∧ (strStartsWith str prefix = true → is_prefix (c_text prefix) str)
  ∧ ((String.length str < String.length prefix)%nat →
     strStartsWith str prefix = false)
  ∧ strStartsWith str EmptyString = true.
Proof.
  assert (Hpre : is_prefix prefix str → strStartsWith str prefix = true).
  { intros Hp. unfold strStartsWith.
    pose proof (is_prefix_length _ _ Hp) as Hlen.
    destruct (Nat.ltb_spec (String.length str) (String.length prefix)); [lia|].
    destruct Hp as [rest ->]. by rewrite strncmp_of_prefix. }
  split; [|split; [|split; [|split]]].
  - intros Hnf. split; [|done]. unfold strStartsWith.
    destruct (String.length str <? String.length prefix)%nat; [done|].
    rewrite Z.eqb_eq. by apply strncmp_prefix.
  - done.
  - unfold strStartsWith.
    destruct (String.length str <? String.length prefix)%nat; [done|].
    rewrite Z.eqb_eq. apply strncmp_zero_c_text.
  - intros Hlt. unfold strStartsWith.
    by destruct (Nat.ltb_spec (String.length str) (String.length prefix)); [|lia].
  - unfold strStartsWith. simpl.
    by destruct (String.length str <? 0)%nat eqn:E; [apply Nat.ltb_lt in E; lia|].
Qed.

Lemma strStartsWith_spec_witness :
  nul_free "libQt5"
  ∧ (strStartsWith "libQt5Core.so.5" "libQt5" = true
     ↔ is_prefix "libQt5" "libQt5Core.so.5")
  ∧ is_prefix "libQt5" "libQt5Core.so.5"
  ∧ strStartsWith "libQt5Core.so.5" "libQt5" = true
  ∧ (String.length "so" < String.length "so.5")%nat
  ∧ strStartsWith "so" "so.5" = false.
Proof.
  assert (Hnf : nul_free "libQt5") by (apply nul_freeb_spec; reflexivity).
  assert (Hp : is_prefix "libQt5" "libQt5Core.so.5") by (by exists "Core.so.5").
  assert (Hlt : (String.length "so" < String.length "so.5")%nat) by (simpl; lia).
  destruct (strStartsWith_spec "libQt5Core.so.5" "libQt5") as (H1 & H2 & _).
  destruct (strStartsWith_spec "so" "so.5") as (_ & _ & _ & H4 & _).
  exact (conj Hnf (conj (H1 Hnf) (conj Hp (conj (H2 Hp) (conj Hlt (H4 Hlt)))))).
Defined.

(** C10, as stated, fails for a prefix with an embedded NUL: the comparison
    stops at the NUL, so ["a\0c"] passes as a prefix of ["a\0b"]. *)
Lemma strStartsWith_embedded_nul :
  strStartsWith ("a" +:+ Sample.nul +:+ "b") ("a" +:+ Sample.nul +:+ "c") = true
  ∧ ¬ is_prefix ("a" +:+ Sample.nul +:+ "c") ("a" +:+ Sample.nul +:+ "b").
Proof.
  split; [reflexivity|].
  intros H. apply is_prefixb_spec in H. discriminate H.
Qed.

(** ** The module matcher *)

Section Matcher.

Context {World Deployer : Type}.
Variable sys : System World Deployer.




Lemma filename_if_regular_file_empty candidate :
  filename_if_regular_file sys EmptyString = Some candidate →
  candidate = EmptyString.
Proof.
  unfold filename_if_regular_file.
  by destruct (sys_is_regular_file sys EmptyString) as [[|]|]; simpl;
    intros [= <-].
Qed.







End Matcher.


(** The two examples of the matcher contract, and a path to a library. *)
Example matches_webenginecore_library :
  let sys := Sample.system Sample.env_unset ["/usr/lib/libQt5WebEngineCore.so.5"]
               [] Sample.qmake_output Sample.one_deployer in
  matchesQtModule sys "libQt5WebEngineCore.so.5" Sample.webenginecore = Some true
  ∧ matchesQtModule sys "libQt5WebEngine.so.5" Sample.webenginecore = Some false
  ∧ matchesQtModule sys "libQt5WebEngineCore.so.5" Sample.webengine = Some false
  ∧ matchesQtModule sys "/usr/lib/libQt5WebEngineCore.so.5" Sample.webenginecore
    = Some true
  ∧ matchesQtModule sys "/opt/libQt5WebEngineCore.so.5" Sample.webenginecore
    = Some false
  ∧ matchesQtModule sys "webenginecore" Sample.webenginecore = Some true.
Proof. vm_compute. repeat split. Qed.


(** C1, as stated, also fails for a candidate whose status the file system
    does not give: on a file system that limits a name to 255 bytes, the
    matcher throws on a token of 300 bytes, and the run of [main] that was
    given this token with [-p] is killed by the exception before it
    deploys anything. *)
Example matchesQtModule_status_error :
  let sys := SampleFailures.sys_name_limit in
  let L := SampleFailures.long_token in
  String.length L = 300%nat
  ∧ sys_is_regular_file sys L = None
  ∧ matchesQtModule sys L Sample.widgets = None
  ∧ run_main Sample.catalog sys (Sample.command_line [L]) tt
    = (Killed filesystem_error, []).
Proof. vm_compute. repeat split. Qed.

(** ** Parsing the output of [qmake -query] *)

Section QueryParsing.

Implicit Types (rv : gmap string string) (line key value : string).

Lemma queryQmake_line_cases rv line :
  (∃ key value, stringSplit line ":" = [key; value]
                ∧ queryQmake_line rv line = <[key := value]> rv)
  ∨ (length (stringSplit line ":") ≠ 2%nat ∧ queryQmake_line rv line = rv).
Proof.
  unfold queryQmake_line.
  destruct (stringSplit line ":") as [|key [|value [|more parts]]];
    simpl; eauto.
Qed.

Lemma queryQmake_line_two_parts rv line key value :
  stringSplit line ":" = [key; value] →
  queryQmake_line rv line = <[key := value]> rv.
Proof. unfold queryQmake_line. by intros ->. Qed.

Lemma queryQmake_line_other rv line :
  length (stringSplit line ":") ≠ 2%nat → queryQmake_line rv line = rv.
Proof.
  destruct (queryQmake_line_cases rv line) as [(k & v & E & _)|[_ E]]; [|done].
  rewrite E. done.
Qed.

(** An entry of the result was in the map before or comes from a line
    with exactly two parts. *)
Lemma foldl_queryQmake_line_lookup lines :
  ∀ rv key value,
    foldl queryQmake_line rv lines !! key = Some value →
    rv !! key = Some value
    ∨ ∃ line, line ∈ lines ∧ stringSplit line ":" = [key; value].
Proof.
  induction lines as [|line lines IH]; intros rv key value; simpl; [auto|].
  intros H. apply IH in H as [H|(l & Hl & E)].
  - destruct (queryQmake_line_cases rv line) as [(k & v & E & Hq)|[_ Hq]];
      rewrite Hq in H; [|auto].
    destruct (decide (k = key)) as [->|Hne].
    + rewrite lookup_insert_eq in H. injection H as ->.
      right. exists line. split; [left | done].
    + rewrite lookup_insert_ne in H by done. auto.
  - right. exists l. split; [by right | done].
Qed.

(** Lines that do not mention [key] leave its entry alone. *)
Lemma foldl_queryQmake_line_untouched lines :
  ∀ rv key,
    (∀ line value, line ∈ lines → stringSplit line ":" ≠ [key; value]) →
    foldl queryQmake_line rv lines !! key = rv !! key.
Proof.
  induction lines as [|line lines IH]; intros rv key Hno; simpl; [done|].
  rewrite IH.
  - destruct (queryQmake_line_cases rv line) as [(k & v & E & ->)|[_ ->]]; [|done].
    apply lookup_insert_ne. intros ->. eapply Hno; [left | exact E].
  - intros l v Hl. apply Hno. by right.
Qed.

(** Entries are overwritten, never removed. *)
Lemma foldl_queryQmake_line_keeps lines :
  ∀ rv key,
    is_Some (rv !! key) → is_Some (foldl queryQmake_line rv lines !! key).
Proof.
  induction lines as [|line lines IH]; intros rv key Hsome; simpl; [done|].
  apply IH.
  destruct (queryQmake_line_cases rv line) as [(k & v & E & ->)|[_ ->]]; [|done].
  rewrite lookup_insert. case_decide; [by eexists | done].
Qed.

Lemma foldl_queryQmake_line_is_Some lines :
  ∀ rv line key value,
    line ∈ lines → stringSplit line ":" = [key; value] →
    is_Some (foldl queryQmake_line rv lines !! key).
Proof.
  induction lines as [|l lines IH]; intros rv line key value Hin E.
  - by apply elem_of_nil in Hin.
  - simpl. apply elem_of_cons in Hin as [->|Hin]; [|by eapply IH].
    apply foldl_queryQmake_line_keeps.
    rewrite (queryQmake_line_two_parts _ _ _ _ E), lookup_insert_eq.
    by eexists.
Qed.

Lemma foldl_queryQmake_line_filter lines :
  ∀ rv,
    foldl queryQmake_line rv lines =
    foldl queryQmake_line rv
          (filter (λ line, length (stringSplit line ":") = 2%nat) lines).
Proof.
  induction lines as [|line lines IH]; intros rv; [done|].
  rewrite filter_cons. destruct (decide _) as [E|E]; simpl.
  - apply IH.
  - rewrite queryQmake_line_other by done. apply IH.
Qed.

(** C7: the parsed lookup holds exactly the entries of the lines that
    split at [':'] into exactly two parts; every other line is dropped
    without a trace.  The three-line example parses to the two-entry
    map. *)
Theorem parseQmakeOutput_spec (out : string) :
  (∀ key value,
      parseQmakeOutput out !! key = Some value →
      ∃ line, line ∈ getlines out ∧ stringSplit line ":" = [key; value])
  ∧ (∀ line key value,
      line ∈ getlines out → stringSplit line ":" = [key; value] →
      is_Some (parseQmakeOutput out !! key))
  ∧ parseQmakeOutput out =
      foldl queryQmake_line ∅
            (filter (λ line, length (stringSplit line ":") = 2%nat)
                    (getlines out))
  ∧ parseQmakeOutput
      ("QT_INSTALL_LIBS:/opt/qt/lib" +:+ Sample.nl +:+ "malformed_line"
       +:+ Sample.nl +:+ "QT_INSTALL_BINS:/opt/qt/bin")
    = {[ "QT_INSTALL_LIBS" := "/opt/qt/lib";
         "QT_INSTALL_BINS" := "/opt/qt/bin" ]}.
Proof.
  unfold parseQmakeOutput. split; [|split; [|split]].
  - intros key value H.
    apply foldl_queryQmake_line_lookup in H as [H|H]; [|done].
    by rewrite lookup_empty in H.
  - intros line key value Hin E. by eapply foldl_queryQmake_line_is_Some.
  - apply foldl_queryQmake_line_filter.
  - vm_compute. reflexivity.
Qed.

(** C9: when several well-formed lines carry the same key, the lookup
    maps the key to the value of the last of them. *)
Theorem parseQmakeOutput_last_wins (out : string) l1 line l2 key value :
  getlines out = l1 ++ line :: l2 →
  stringSplit line ":" = [key; value] →
  (∀ line' value', line' ∈ l2 → stringSplit line' ":" ≠ [key; value']) →
  parseQmakeOutput out !! key = Some value.
Proof.
  intros Hlines E Hlast. unfold parseQmakeOutput.
  rewrite Hlines, foldl_app. simpl.
  rewrite foldl_queryQmake_line_untouched by done.
  rewrite (queryQmake_line_two_parts _ _ _ _ E). apply lookup_insert_eq.
Qed.

End QueryParsing.

(** How the [getline] loop counts parts: a trailing delimiter adds none, a
    leading or doubled one adds an empty part. *)
Example stringSplit_parts :
  stringSplit "QT_INSTALL_LIBS:/opt/qt/lib" ":" = ["QT_INSTALL_LIBS"; "/opt/qt/lib"]
  ∧ stringSplit "malformed_line" ":" = ["malformed_line"]
  ∧ stringSplit "QT_SYSROOT:" ":" = ["QT_SYSROOT"]
  ∧ stringSplit "QT_HOST_DATA:/usr:" ":" = ["QT_HOST_DATA"; "/usr"]
  ∧ stringSplit ":/usr" ":" = [EmptyString; "/usr"]
  ∧ stringSplit "a::b" ":" = ["a"; EmptyString; "b"]
  ∧ stringSplit EmptyString ":" = [].
Proof. repeat split. Qed.

Lemma parseQmakeOutput_spec_witness :
  let out := "QT_INSTALL_LIBS:/opt/qt/lib" +:+ Sample.nl +:+ "malformed_line"
             +:+ Sample.nl +:+ "QT_INSTALL_BINS:/opt/qt/bin" in
  parseQmakeOutput out !! "QT_INSTALL_BINS" = Some "/opt/qt/bin"
  ∧ ∃ line, line ∈ getlines out
            ∧ stringSplit line ":" = ["QT_INSTALL_BINS"; "/opt/qt/bin"].
Proof.
  intros out.
  assert (H : parseQmakeOutput out !! "QT_INSTALL_BINS" = Some "/opt/qt/bin")
    by (vm_compute; reflexivity).
  destruct (parseQmakeOutput_spec out) as (Hfrom & _).
  exact (conj H (Hfrom _ _ H)).
Defined.

Lemma parseQmakeOutput_last_wins_witness :
  let out := "QT_INSTALL_LIBS:/usr/lib" +:+ Sample.nl
             +:+ "QT_INSTALL_LIBS:/opt/qt/lib" +:+ Sample.nl
             +:+ "QT_INSTALL_BINS:/opt/qt/bin" +:+ Sample.nl in
  getlines out = ["QT_INSTALL_LIBS:/usr/lib"]
                  ++ "QT_INSTALL_LIBS:/opt/qt/lib" :: ["QT_INSTALL_BINS:/opt/qt/bin"]
  ∧ stringSplit "QT_INSTALL_LIBS:/opt/qt/lib" ":" = ["QT_INSTALL_LIBS"; "/opt/qt/lib"]
  ∧ parseQmakeOutput out !! "QT_INSTALL_LIBS" = Some "/opt/qt/lib".
Proof.
  intros out.
  assert (H1 : getlines out = ["QT_INSTALL_LIBS:/usr/lib"]
                 ++ "QT_INSTALL_LIBS:/opt/qt/lib" :: ["QT_INSTALL_BINS:/opt/qt/bin"])
    by reflexivity.
  assert (H2 : stringSplit "QT_INSTALL_LIBS:/opt/qt/lib" ":"
               = ["QT_INSTALL_LIBS"; "/opt/qt/lib"]) by reflexivity.
  refine (conj H1 (conj H2 (parseQmakeOutput_last_wins out _ _ _ _ _ H1 H2 _))).
  intros line' value' Hin E.
  apply list_elem_of_singleton in Hin. subst line'. discriminate E.
Defined.

(** ** The run of [main] *)

Ltac trace_norm := unfold logged; simpl; rewrite <- ?app_assoc; simpl.

Section MainRun.

Context {World Deployer : Type}.
Variable QtModules : list QtModule.
Variable sys : System World Deployer.

Implicit Types (st : @State World) (events : list Event).

Lemma module_headers_app events1 events2 :
  module_headers (events1 ++ events2)
  = module_headers events1 ++ module_headers events2.
Proof.
  induction events1 as [|e events1 IH]; [done|].
  destruct e; simpl; by rewrite ?IH.
Qed.

Lemma module_headers_none events :
  Forall (λ e, ∀ module_name, e ≠ EvModule module_name) events →
  module_headers events = [].
Proof.
  induction 1 as [|e events He _ IH]; [done|].
  destruct e; simpl; try done. by destruct (He module_name).
Qed.

Lemma new_events_app st st' events :
  trace st' = trace st ++ events → new_events st st' = events.
Proof. unfold new_events. intros ->. by rewrite drop_app_length. Qed.

Lemma extraQtModules_of_two extraQtModules names1 names2 :
  extraQtModules_of QtModules sys extraQtModules [names1; names2]
  = from1 ← copy_if_matches QtModules sys names1;
    from2 ← copy_if_matches QtModules sys names2;
    Some (extraQtModules ++ from1 ++ from2).
Proof.
  cbn [extraQtModules_of].
  destruct (copy_if_matches QtModules sys names1) as [from1|]; [|done].
  destruct (copy_if_matches QtModules sys names2) as [from2|]; [|done].
  simpl. by rewrite <- app_assoc.
Qed.

(** [main] up to the loop over the modules, step by step: every guard
    with the exit status and the events of the run that it ends, and
    every call that may not return. *)
Lemma main_run cli st :
  main QtModules sys cli st =
  if negb (parse_ok cli) then (Exit 1, logged st [EvUsage])
  else if pluginType cli then (Exit 0, logged st [EvStdout "input"])
  else if pluginApiVersion cli then (Exit 0, logged st [EvStdout "0"])
  else
    match appDirPath cli with
    | None =>
        (Exit 1, logged st [EvLog LD_ERROR ["--appdir parameter required"]; EvUsage])
    | Some appDir =>
        match sys_is_directory sys appDir with
        | None => (Abort filesystem_error, logged st [])
        | Some false =>
            (Exit 1, logged st [EvLog LD_ERROR ["No such directory:"; appDir]])
        | Some true =>
            match foundQtModules QtModules sys (collectLibraryNames sys appDir) with
            | None => (Abort filesystem_error, logged st (copyright_events sys))
            | Some found =>
                match extraPluginsFromEnv sys with
                | None => (Abort memory_fault, logged st (copyright_events sys))
                | Some env =>
                    match extraQtModules_of QtModules sys []
                            [extraPlugins cli; env] with
                    | None => (Abort filesystem_error, logged st (copyright_events sys))
                    | Some extra =>
                        main_after_resolution sys st (copyright_events sys) found extra
                    end
                end
            end
        end
    end.
Proof.
  destruct st as [w t].
  unfold main, bind, when, attempt, main_after_resolution, main_after_checks,
    copyright_events.
  destruct (parse_ok cli); simpl; [|done].
  destruct (pluginType cli); simpl; [done|].
  destruct (pluginApiVersion cli); simpl; [done|].
  destruct (appDirPath cli) as [appDir|]; simpl; [|by trace_norm].
  destruct (sys_is_directory sys appDir) as [[|]|]; simpl;
    [|done|by trace_norm; rewrite app_nil_r].
  unfold queryQmake, queryQmake_value, bind.
  destruct (bool_decide (is_Some _)); simpl;
    (destruct (foundQtModules _ _ _) as [found|]; simpl;
       [|by trace_norm; rewrite ?app_nil_r];
     destruct (extraPluginsFromEnv sys) as [env|]; simpl;
       [|by trace_norm; rewrite ?app_nil_r];
     destruct (copy_if_matches QtModules sys (extraPlugins cli)) as [from1|];
       simpl; [|by trace_norm; rewrite ?app_nil_r];
     destruct (copy_if_matches QtModules sys env) as [from2|];
       simpl; [|by trace_norm; rewrite ?app_nil_r];
     destruct (bool_decide (found = []) && _); simpl;
       [by trace_norm|];
     destruct (bool_decide (findQmake sys = _)); simpl; [by trace_norm|];
     destruct (sys_exists sys _) as [[|]|]; simpl;
       [|by trace_norm|by trace_norm; rewrite ?app_nil_r];
     destruct (proc_retcode _ =? 0); simpl;
       destruct (bool_decide (_ = ∅)); simpl;
       try (by trace_norm); f_equal; by trace_norm).
Qed.

(** The inner loop stops at the first deployer that fails. *)
Lemma deployAll_run module_name deployers :
  ∀ index st,
    let r := deployAll sys module_name index deployers st in
    ∃ events, trace r.2 = trace st ++ events ∧
      match r.1 with
      | Continue _ =>
          Forall deploy_progress events ∧ module_headers events = []
      | Exit code =>
          code = 1 ∧ ∃ events0 k,
            events = events0 ++ [EvDeploy module_name k false]
            ∧ Forall deploy_progress events0 ∧ module_headers events0 = []
      | Abort _ => False
      end.
Proof.
  induction deployers as [|deployer rest IH]; intros index st; simpl.
  - exists []. by rewrite app_nil_r.
  - unfold bind, act. simpl.
    destruct (sys_deploy sys deployer (world st)) as [[|] w'] eqn:E; simpl.
    + destruct (IH (S index)
                  {| world := w';
                     trace := trace st ++ [EvDeploy module_name index true] |})
        as (events & Htrace & Hres).
      simpl in Htrace.
      exists (EvDeploy module_name index true :: events).
      split; [by rewrite Htrace, <- app_assoc|].
      destruct (deployAll _ _ _ _ _).1 as [[]|code|fault]; [| |done].
      * destruct Hres as [Hprog Hhead]. split; [by constructor | done].
      * destruct Hres as (-> & events0 & k & -> & Hprog & Hhead).
        split; [done|]. exists (EvDeploy module_name index true :: events0), k.
        split; [done|]. split; [by constructor | done].
    + exists [EvDeploy module_name index false]. split; [done|].
      split; [done|]. exists [], index. by split.
Qed.

Lemma deployModules_cons factory module rest st :
  deployModules sys factory (module :: rest) st =
  match deployAll sys (name module) 0
          (sys_getDeployers sys factory (name module))
          (logged st [EvModule (name module)]) with
  | (Continue _, st1) => deployModules sys factory rest st1
  | (Exit code, st1) => (Exit code, st1)
  | (Abort fault, st1) => (Abort fault, st1)
  end.
Proof. reflexivity. Qed.

(** The outer loop: either every module is deployed, or the run ends at
    the first failing deployer, within the module that owns it. *)
Lemma deployModules_run factory modules :
  ∀ st,
    let r := deployModules sys factory modules st in
    ∃ events, trace r.2 = trace st ++ events ∧
      match r.1 with
      | Continue _ =>
          Forall deploy_progress events
          ∧ module_headers events = map name modules
      | Exit code =>
          code = 1 ∧ ∃ events0 pre module post k,
            modules = pre ++ module :: post
            ∧ events = events0 ++ [EvDeploy (name module) k false]
            ∧ Forall deploy_progress events0
            ∧ module_headers events0 = map name (pre ++ [module])
      | Abort _ => False
      end.
Proof.
  induction modules as [|module rest IH]; intros st; cbv zeta.
  - exists []. simpl. by rewrite app_nil_r.
  - rewrite deployModules_cons.
    pose proof (deployAll_run (name module)
                  (sys_getDeployers sys factory (name module)) 0%nat
                  (logged st [EvModule (name module)])) as (ev1 & Ht1 & Hr1).
    destruct (deployAll sys (name module) 0 _ _) as [[[]|code|fault] st1];
      simpl in Ht1, Hr1; cbv iota beta; [| |done].
    + destruct Hr1 as [Hprog1 Hhead1].
      destruct (IH st1) as (ev2 & Ht2 & Hr2).
      exists (EvModule (name module) :: ev1 ++ ev2).
      split; [rewrite Ht2, Ht1; by trace_norm|].
      destruct (deployModules sys factory rest st1).1 as [[]|code|fault];
        [| |done].
      * destruct Hr2 as [Hprog2 Hhead2]. split.
        -- constructor; [done|]. by apply Forall_app.
        -- simpl. by rewrite module_headers_app, Hhead1, Hhead2.
      * destruct Hr2 as (-> & ev0 & pre & m & post & k & -> & -> & Hprog2 & Hhead2).
        split; [done|].
        exists (EvModule (name module) :: ev1 ++ ev0), (module :: pre), m, post, k.
        split; [done|]. split; [by trace_norm|]. split.
        -- constructor; [done|]. by apply Forall_app.
        -- simpl. by rewrite module_headers_app, Hhead1, Hhead2.
    + destruct Hr1 as (-> & ev0 & k & -> & Hprog1 & Hhead1).
      exists (EvModule (name module) :: ev0 ++ [EvDeploy (name module) k false]).
      cbn [fst snd].
      split; [rewrite Ht1; by trace_norm|]. split; [done|].
      exists (EvModule (name module) :: ev0), [], module, rest, k.
      split; [done|]. split; [done|]. split; [by constructor|].
      simpl. by rewrite Hhead1.
Qed.

(** After the loop: the four closing stages, each fatal when it fails. *)
Lemma deployment_unfold factory modules st :
  match deployModules sys factory modules st with
  | (Exit code, st1) => deployment sys factory modules st = (Exit code, st1)
  | (Abort fault, st1) => deployment sys factory modules st = (Abort fault, st1)
  | (Continue _, st1) =>
      ∃ r w' events1,
        deployment sys factory modules st
        = (r, {| world := w'; trace := trace st1 ++ events1 |})
        ∧ Forall (λ e, after_loop_event e = true) events1
        ∧ ((r = Continue 0 ∧ events1 = closing_events) ∨ r = Exit 1)
  end.
Proof.
  destruct (deployModules sys factory modules st) as [[[]|code|fault] st1] eqn:E;
    unfold deployment, bind; rewrite E; [|done|done].
  unfold act, when, emit, exit, ret. simpl.
  destruct (sys_deployTranslations sys _ _ _) as [[|] w1]; simpl.
  2:{ exists (Exit 1), w1,
        [EvDeployTranslations false;
         EvLog LD_ERROR ["Failed to deploy translations"]].
      split; [by rewrite <- ?app_assoc|]. split; [by repeat constructor | by right]. }
  destruct (sys_executeDeferredOperations sys _) as [[|] w2]; simpl.
  2:{ exists (Exit 1), w2,
        [EvDeployTranslations true; EvDeferredOperations false;
         EvLog LD_ERROR ["Failed to execute deferred operations"]].
      split; [by rewrite <- ?app_assoc|]. split; [by repeat constructor | by right]. }
  destruct (sys_createQtConf sys _) as [[|] w3]; simpl.
  2:{ exists (Exit 1), w3,
        [EvDeployTranslations true; EvDeferredOperations true; EvQtConf false;
         EvLog LD_ERROR ["Failed to create qt.conf in AppDir"]].
      split; [by rewrite <- ?app_assoc|]. split; [by repeat constructor | by right]. }
  destruct (sys_createAppRunHook sys _) as [[|] w4]; simpl.
  2:{ exists (Exit 1), w4,
        [EvDeployTranslations true; EvDeferredOperations true; EvQtConf true;
         EvAppRunHook false;
         EvLog LD_ERROR ["Failed to create AppRun hook in AppDir"]].
      split; [by rewrite <- ?app_assoc|]. split; [by repeat constructor | by right]. }
  exists (Continue 0), w4, closing_events.
  split; [by rewrite <- ?app_assoc|]. split; [by repeat constructor | by left].
Qed.

(** The whole deployment phase: it ends at a failing deployer, or it runs
    every module and then the closing stages. *)
Lemma deployment_run factory modules st :
  let r := deployment sys factory modules st in
  ∃ events, trace r.2 = trace st ++ events ∧
    ((r.1 = Exit 1 ∧ ∃ events0 pre module post k,
         modules = pre ++ module :: post
         ∧ events = events0 ++ [EvDeploy (name module) k false]
         ∧ Forall deploy_progress events0
         ∧ module_headers events0 = map name (pre ++ [module]))
     ∨ (∃ events0 events1,
         events = events0 ++ events1
         ∧ Forall deploy_progress events0
         ∧ module_headers events0 = map name modules
         ∧ Forall (λ e, after_loop_event e = true) events1
         ∧ ((r.1 = Continue 0 ∧ events1 = closing_events) ∨ r.1 = Exit 1))).
Proof.
  cbv zeta.
  pose proof (deployment_unfold factory modules st) as Hd.
  destruct (deployModules_run factory modules st) as (ev & Ht & Hr).
  destruct (deployModules sys factory modules st) as [[[]|code|fault] st1];
    simpl in Ht, Hr; [| |done].
  - destruct Hd as (r & w' & events1 & -> & Hafter & Hres).
    destruct Hr as [Hprog Hhead]. exists (ev ++ events1). simpl.
    split; [by rewrite Ht, app_assoc|]. right. by exists ev, events1.
  - rewrite Hd.
    destruct Hr as (-> & ev0 & pre & m & post & k & -> & -> & Hprog & Hhead).
    exists (ev0 ++ [EvDeploy (name m) k false]). simpl. split; [done|].
    left. split; [done|]. by exists ev0, pre, m, post, k.
Qed.

Lemma deploy_progress_not_failed events module_name index :
  Forall deploy_progress events → EvDeploy module_name index false ∉ events.
Proof.
  intros Hall Hin. rewrite Forall_forall in Hall. by apply Hall in Hin.
Qed.

Lemma deploy_progress_not_deferred events ok :
  Forall deploy_progress events → EvDeferredOperations ok ∉ events.
Proof.
  intros Hall Hin. rewrite Forall_forall in Hall. by apply Hall in Hin.
Qed.


Lemma after_loop_not_failed events module_name index :
  Forall (λ e, after_loop_event e = true) events →
  EvDeploy module_name index false ∉ events.
Proof.
  intros Hall Hin. rewrite Forall_forall in Hall. by apply Hall in Hin.
Qed.


Lemma after_loop_no_headers events :
  Forall (λ e, after_loop_event e = true) events → module_headers events = [].
Proof.
  intros Hall. apply module_headers_none.
  eapply Forall_impl; [exact Hall|]. intros e He module_name ->. done.
Qed.

(** A deployer that reports failure ends the deployment phase at once. *)
Lemma deployment_stops_at_failure factory modules st module_name index :
  let r := deployment sys factory modules st in
  EvDeploy module_name index false ∈ new_events st r.2 →
  r.1 = Exit 1
  ∧ ∃ events0 pre module post,
      modules = pre ++ module :: post
      ∧ name module = module_name
      ∧ new_events st r.2 = events0 ++ [EvDeploy module_name index false]
      ∧ Forall deploy_progress events0
      ∧ module_headers (new_events st r.2) = map name (pre ++ [module])
      ∧ ∀ ok, EvDeferredOperations ok ∉ new_events st r.2.
Proof.
  cbv zeta. intros Hin.
  destruct (deployment_run factory modules st) as (events & Ht & Hcases).
  rewrite (new_events_app _ _ _ Ht) in *.
  destruct Hcases as [(Hexit & ev0 & pre & m & post & k & -> & -> & Hprog & Hhead)
                     |(ev0 & ev1 & -> & Hprog & _ & Hafter & _)].
  - split; [done|].
    apply elem_of_app in Hin as [Hin|Hin];
      [by apply deploy_progress_not_failed in Hin|].
    apply list_elem_of_singleton in Hin. injection Hin as Hname Hindex.
    subst module_name index.
    exists ev0, pre, m, post.
    split; [done|]. split; [done|]. split; [done|]. split; [done|]. split.
    + rewrite module_headers_app, Hhead. simpl. by rewrite app_nil_r.
    + intros ok Hd. apply elem_of_app in Hd as [Hd|Hd];
        [by apply deploy_progress_not_deferred in Hd|].
      by apply list_elem_of_singleton in Hd.
  - apply elem_of_app in Hin as [Hin|Hin].
    + by apply deploy_progress_not_failed in Hin.
    + by apply after_loop_not_failed in Hin.
Qed.

End MainRun.

(** ** Fatal conditions before deployment *)

Section Outcomes.

Context {World Deployer : Type}.
Variable QtModules : list QtModule.
Variable sys : System World Deployer.

Implicit Types (st : @State World) (events : list Event) (cli : CommandLine).

Lemma no_deployment_app events1 events2 :
  no_deployment events1 → no_deployment events2 →
  no_deployment (events1 ++ events2).
Proof. apply Forall_app_2. Qed.

Lemma no_deployment_copyright : no_deployment (copyright_events sys).
Proof.
  unfold copyright_events. destruct (bool_decide _); by repeat constructor.
Qed.

Lemma no_deployment_query (b : bool) text :
  no_deployment
    (if b then [EvLog LD_ERROR ["Call to qmake failed:"; text]] else []).
Proof. destruct b; by repeat constructor. Qed.




Lemma both_empty_decide (found extra : list QtModule) :
  bool_decide (found = []) && bool_decide (extra = []) = true
  ↔ found = [] ∧ extra = [].
Proof. rewrite andb_true_iff, !bool_decide_eq_true. done. Qed.

(** *** The lists of the resolution *)

(** When [find_if] returns, it has found a match exactly when some name
    of the list matches. *)
Lemma matchesAny_returns names module :
  ∀ matched,
    matchesAny sys names module = Some matched →
    matched = true
    ↔ ∃ token, token ∈ names ∧ matchesQtModule sys token module = Some true.
Proof.
  induction names as [|first rest IH]; intros matched; cbn [matchesAny].
  - intros [= <-]. split; [done|]. intros (token & Hin & _).
    by apply elem_of_nil in Hin.
  - destruct (matchesQtModule sys first module) as [[|]|] eqn:Hfirst;
      simpl; [| |done].
    + intros [= <-]. split; [|done]. intros _. exists first. split; [left|done].
    + intros Hrest. rewrite (IH _ Hrest). split.
      * intros (token & Hin & Hm). exists token. split; [by right | done].
      * intros (token & Hin & Hm).
        apply elem_of_cons in Hin as [->|Hin]; [congruence|]. by exists token.
Qed.

(** When [copy_if] returns, [find_if] has returned for every entry of the
    range, and the copy holds the entries with a match, in order. *)
Lemma copy_if_Some catalog names :
  ∀ copied,
    copy_if sys catalog names = Some copied →
    copied = filter (λ module, matchesAny sys names module = Some true) catalog
    ∧ Forall (λ module, is_Some (matchesAny sys names module)) catalog.
Proof.
  induction catalog as [|module rest IH]; intros copied; cbn [copy_if].
  - intros [= <-]. split; [done | constructor].
  - destruct (matchesAny sys names module) as [matched|] eqn:Hm; [|done].
    destruct (copy_if sys rest names) as [copied'|]; [|done]. simpl.
    intros [= <-]. destruct (IH copied' eq_refl) as [-> Hall].
    split; [|constructor; [by eexists | done]].
    rewrite filter_cons, Hm. destruct matched.
    + by rewrite decide_True.
    + by rewrite decide_False.
Qed.



Lemma elem_of_copy_if_matches names copied module :
  copy_if_matches QtModules sys names = Some copied →
  module ∈ copied
  ↔ module ∈ QtModules
    ∧ ∃ token, token ∈ names ∧ matchesQtModule sys token module = Some true.
Proof.
  intros Hcopy. apply copy_if_Some in Hcopy as [-> Hall].
  rewrite list_elem_of_filter. rewrite Forall_forall in Hall. split.
  - intros [Hm Hin]. split; [done|]. by apply (matchesAny_returns _ _ _ Hm).
  - intros [Hin Htoken]. split; [|done].
    destruct (Hall _ Hin) as [matched Hm]. rewrite Hm. f_equal.
    by apply (matchesAny_returns _ _ _ Hm).
Qed.

Lemma copy_if_matches_sublist names copied :
  copy_if_matches QtModules sys names = Some copied →
  copied `sublist_of` QtModules.
Proof. intros Hcopy. apply copy_if_Some in Hcopy as [-> _]. apply sublist_filter. Qed.

(** The extra list is the matches of the [-p] tokens followed by the
    matches of the tokens of the environment. *)
Lemma extraQtModules_Some cli extra :
  extraQtModules QtModules sys cli = Some extra
  ↔ ∃ env from_cli from_env,
      extraPluginsFromEnv sys = Some env
      ∧ copy_if_matches QtModules sys (extraPlugins cli) = Some from_cli
      ∧ copy_if_matches QtModules sys env = Some from_env
      ∧ extra = from_cli ++ from_env.
Proof.
  unfold extraQtModules. split.
  - destruct (extraPluginsFromEnv sys) as [env|]; [|done].
    cbn [mbind option_bind]. rewrite extraQtModules_of_two.
    destruct (copy_if_matches QtModules sys (extraPlugins cli))
      as [from_cli|] eqn:Hcli; [|done].
    destruct (copy_if_matches QtModules sys env) as [from_env|] eqn:Henv;
      [|done].
    simpl. intros [= <-]. by exists env, from_cli, from_env.
  - intros (env & from_cli & from_env & -> & Hcli & Henv & ->).
    cbn [mbind option_bind]. by rewrite extraQtModules_of_two, Hcli, Henv.
Qed.

(** *** The run up to the deployment *)

(** What a run that reaches the resolution does next. *)
Lemma main_from_resolution cli appDir st :
  reaches_resolution sys cli appDir →
  main QtModules sys cli st =
  match foundQtModules QtModules sys (collectLibraryNames sys appDir) with
  | None => (Abort filesystem_error, logged st (copyright_events sys))
  | Some found =>
      match extraPluginsFromEnv sys with
      | None => (Abort memory_fault, logged st (copyright_events sys))
      | Some env =>
          match extraQtModules_of QtModules sys [] [extraPlugins cli; env] with
          | None => (Abort filesystem_error, logged st (copyright_events sys))
          | Some extra =>
              main_after_resolution sys st (copyright_events sys) found extra
          end
      end
  end.
Proof.
  intros (Hparse & Htype & Hversion & Happ & Hdir).
  rewrite main_run, Hparse, Htype, Hversion, Happ, Hdir. done.
Qed.

(** What it does once the two lists are there. *)
Lemma main_from_lists cli appDir st found extra :
  reaches_resolution sys cli appDir →
  foundQtModules QtModules sys (collectLibraryNames sys appDir) = Some found →
  extraQtModules QtModules sys cli = Some extra →
  main QtModules sys cli st
  = main_after_resolution sys st (copyright_events sys) found extra.
Proof.
  intros Hreach Hfound Hextra.
  rewrite (main_from_resolution cli appDir st Hreach), Hfound.
  unfold extraQtModules in Hextra.
  destruct (extraPluginsFromEnv sys) as [env|]; [|done].
  cbn [mbind option_bind] in Hextra. by rewrite Hextra.
Qed.

(** A run that reaches the resolution and does not get the two lists is
    killed there. *)
Lemma main_without_lists cli appDir st :
  reaches_resolution sys cli appDir →
  foundQtModules QtModules sys (collectLibraryNames sys appDir) = None
  ∨ extraQtModules QtModules sys cli = None →
  ∃ fault,
    main QtModules sys cli st
    = (Abort fault, logged st (copyright_events sys)).
Proof.
  intros Hreach Hnone. rewrite (main_from_resolution cli appDir st Hreach).
  destruct (foundQtModules QtModules sys _) as [found|]; [|by eexists].
  destruct Hnone as [Hnone|Hnone]; [done|]. unfold extraQtModules in Hnone.
  destruct (extraPluginsFromEnv sys) as [env|]; [|by eexists].
  cbn [mbind option_bind] in Hnone. rewrite Hnone. by eexists.
Qed.

(** Every run either ends before the deployment phase, killed or with
    status 1 unless a plugin query was answered, or enters the deployment
    phase with the two lists of the resolution, not both empty, and a
    lookup that is not empty. *)
Lemma main_digest cli st :
  (∃ r events,
      main QtModules sys cli st = (r, logged st events)
      ∧ no_deployment events
      ∧ (r = Exit 1
         ∨ (r = Exit 0 ∧ parse_ok cli = true
            ∧ (pluginType cli = true ∨ pluginApiVersion cli = true))
         ∨ ∃ fault, r = Abort fault))
  ∨ (∃ appDir events found extra,
      reaches_resolution sys cli appDir
      ∧ foundQtModules QtModules sys (collectLibraryNames sys appDir) = Some found
      ∧ extraQtModules QtModules sys cli = Some extra
      ∧ qtModulesToDeploy found extra ≠ []
      ∧ queryQmake_value sys (findQmake sys) ≠ ∅
      ∧ no_deployment events
      ∧ main QtModules sys cli st =
        deployment sys (factory_of (queryQmake_value sys (findQmake sys)))
          (qtModulesToDeploy found extra) (logged st events)).
Proof.
  destruct (parse_ok cli) eqn:Hparse.
  2:{ left. exists (Exit 1), [EvUsage]. rewrite main_run, Hparse. simpl.
      split; [done|]. split; [by repeat constructor | by left]. }
  destruct (pluginType cli) eqn:Htype.
  { left. exists (Exit 0), [EvStdout "input"]. rewrite main_run, Hparse, Htype.
    simpl. split; [done|]. split; [by repeat constructor | right; left; auto]. }
  destruct (pluginApiVersion cli) eqn:Hversion.
  { left. exists (Exit 0), [EvStdout "0"].
    rewrite main_run, Hparse, Htype, Hversion. simpl.
    split; [done|]. split; [by repeat constructor | right; left; auto]. }
  destruct (appDirPath cli) as [appDir|] eqn:Happ.
  2:{ left. exists (Exit 1), [EvLog LD_ERROR ["--appdir parameter required"]; EvUsage].
      rewrite main_run, Hparse, Htype, Hversion, Happ. simpl.
      split; [done|]. split; [by repeat constructor | by left]. }
  destruct (sys_is_directory sys appDir) as [[|]|] eqn:Hdir.
  2:{ left. exists (Exit 1), [EvLog LD_ERROR ["No such directory:"; appDir]].
      rewrite main_run, Hparse, Htype, Hversion, Happ, Hdir. simpl.
      split; [done|]. split; [by repeat constructor | by left]. }
  2:{ left. exists (Abort filesystem_error), [].
      rewrite main_run, Hparse, Htype, Hversion, Happ, Hdir. simpl.
      split; [done|]. split; [constructor | right; right; by eexists]. }
  assert (Hreach : reaches_resolution sys cli appDir) by done.
  destruct (foundQtModules QtModules sys (collectLibraryNames sys appDir))
    as [found|] eqn:Hfound.
  2:{ destruct (main_without_lists cli appDir st Hreach (or_introl Hfound))
        as [fault ->].
      left. exists (Abort fault), (copyright_events sys). split; [done|].
      split; [apply no_deployment_copyright | right; right; by eexists]. }
  destruct (extraQtModules QtModules sys cli) as [extra|] eqn:Hextra.
  2:{ destruct (main_without_lists cli appDir st Hreach (or_intror Hextra))
        as [fault ->].
      left. exists (Abort fault), (copyright_events sys). split; [done|].
      split; [apply no_deployment_copyright | right; right; by eexists]. }
  rewrite (main_from_lists cli appDir st found extra Hreach Hfound Hextra).
  unfold main_after_resolution.
  destruct (bool_decide (_ = []) && _) eqn:Hboth.
  { left. eexists (Exit 1), _. split; [done|]. split; [|by left].
    apply no_deployment_app; [apply no_deployment_copyright|by repeat constructor]. }
  destruct (bool_decide (findQmake sys = _)).
  { left. eexists (Exit 1), _. split; [done|]. split; [|by left].
    apply no_deployment_app; [apply no_deployment_copyright|by repeat constructor]. }
  destruct (sys_exists sys _) as [[|]|].
  2:{ left. eexists (Exit 1), _. split; [done|]. split; [|by left].
      apply no_deployment_app; [apply no_deployment_copyright|by repeat constructor]. }
  2:{ left. eexists (Abort filesystem_error), _. split; [done|].
      split; [apply no_deployment_copyright | right; right; by eexists]. }
  unfold main_after_checks; cbv zeta.
  destruct (bool_decide (queryQmake_value sys (findQmake sys) = ∅)) eqn:Hvars.
  { left. eexists (Exit 1), _. split; [done|]. split; [|by left].
    apply no_deployment_app; [apply no_deployment_copyright|].
    apply no_deployment_app; [apply no_deployment_query|by repeat constructor]. }
  apply bool_decide_eq_false_1 in Hvars.
  right. eexists appDir, _, found, extra.
  split; [done|]. split; [done|]. split; [done|]. split.
  { intros Hnil. unfold qtModulesToDeploy in Hnil.
    apply app_eq_nil in Hnil as [-> ->]. done. }
  split; [done|]. split; [|done].
  apply no_deployment_app; [apply no_deployment_copyright|].
  apply no_deployment_app; [apply no_deployment_query|by repeat constructor].
Qed.


Lemma no_deployment_no_headers events :
  no_deployment events → module_headers events = [].
Proof.
  intros Hno. apply module_headers_none.
  eapply Forall_impl; [exact Hno|]. intros e He module_name ->. done.
Qed.


(** C3, as amended: when the lookup of the Qt installation paths is empty,
    the run logs no deployment event and, unless it only answered a plugin
    query, does not end well: it ends with status 1 or was killed before
    the query; a run that got as far as the query ends with status 1 and
    the error of the failed query as its last event.  A lookup that is not
    empty is accepted whatever keys it holds: the run enters the
    deployment phase with a factory in which every missing key is the
    empty path. *)
Theorem empty_lookup_is_fatal cli w :
  let qmakeVars := queryQmake_value sys (findQmake sys) in
  let r := run_main QtModules sys cli w in
  (qmakeVars = ∅ →
   no_deployment r.2
   ∧ (pluginType cli = false → pluginApiVersion cli = false →
      r.1 = Returned 1 ∨ ∃ fault, r.1 = Killed fault))
  ∧ (∀ appDir found extra,
       reaches_resolution sys cli appDir →
       foundQtModules QtModules sys (collectLibraryNames sys appDir) = Some found →
       extraQtModules QtModules sys cli = Some extra →
       ¬ (found = [] ∧ extra = []) →
       findQmake sys ≠ EmptyString →
       sys_exists sys (findQmake sys) = Some true →
       (qmakeVars = ∅ →
        r.1 = Returned 1
        ∧ last r.2
          = Some (EvLog LD_ERROR ["Failed to query Qt paths using qmake -query"]))
       ∧ (qmakeVars ≠ ∅ →
          ∃ events,
            no_deployment events
            ∧ main QtModules sys cli {| world := w; trace := [] |}
              = deployment sys (factory_of qmakeVars)
                  (qtModulesToDeploy found extra)
                  {| world := w; trace := events |}))
  ∧ (∀ key, qmakeVars !! key = None → at_key qmakeVars key = EmptyString).
Proof.
  cbv zeta. split; [|split].
  - intros Hempty. unfold run_main.
    destruct (main_digest cli {| world := w; trace := [] |})
      as [(r & events & -> & Hno & Hr)
         |(appDir & events & found & extra & _ & _ & _ & _ & Hvars & _)];
      [|done].
    simpl. split; [done|]. intros Htype Hversion.
    destruct Hr as [->|[(_ & _ & [H|H])|[fault ->]]];
      [by left|congruence|congruence|right; by eexists].
  - intros appDir found extra Hreach Hfound Hextra Hboth Hqmake Hexists.
    unfold run_main.
    rewrite (main_from_lists cli appDir _ found extra Hreach Hfound Hextra).
    unfold main_after_resolution.
    destruct (bool_decide (_ = []) && _) eqn:E;
      [by apply both_empty_decide in E|].
    rewrite (bool_decide_eq_false_2 _ Hqmake), Hexists.
    unfold main_after_checks; cbv zeta. split.
    + intros Hvars. rewrite (bool_decide_eq_true_2 _ Hvars). cbn [fst snd].
      split; [done|]. cbn [trace logged].
      rewrite !app_assoc. apply last_snoc.
    + intros Hvars. rewrite (bool_decide_eq_false_2 _ Hvars).
      unfold logged. simpl. eexists. split; [|reflexivity].
      apply no_deployment_app; [apply no_deployment_copyright|].
      apply no_deployment_app; [apply no_deployment_query|by repeat constructor].
  - intros key Hkey. unfold at_key. by rewrite Hkey.
Qed.

Lemma no_deployment_not_elem events e :
  no_deployment events → deployment_event e = true → e ∉ events.
Proof.
  intros Hno He Hin. unfold no_deployment in Hno. rewrite Forall_forall in Hno.
  apply Hno in Hin. congruence.
Qed.

(** C4: in the deployment phase over any list of modules, from any state,
    a deployer that reports failure ends the run at once with a failure
    status: its event is the last one, every event before it is a module
    header or a successful deployer, the modules that were started are
    exactly the list up to the module of the failing deployer, so no
    deployer of a later module runs, and the deferred operations are never
    executed.  For a whole run of [main]: a failed deployer is the last
    event of the run, the exit status is 1 and the deferred operations are
    not executed. *)
Theorem deployment_fail_fast factory modules st cli w module_name index :
  (let r := deployment sys factory modules st in
   EvDeploy module_name index false ∈ new_events st r.2 →
   r.1 = Exit 1
   ∧ ∃ events0 pre module post,
       modules = pre ++ module :: post
       ∧ name module = module_name
       ∧ new_events st r.2 = events0 ++ [EvDeploy module_name index false]
       ∧ Forall deploy_progress events0
       ∧ module_headers (new_events st r.2) = map name (pre ++ [module])
       ∧ ∀ ok, EvDeferredOperations ok ∉ new_events st r.2)
  ∧ (let run := run_main QtModules sys cli w in
     EvDeploy module_name index false ∈ run.2 →
     run.1 = Returned 1
     ∧ last run.2 = Some (EvDeploy module_name index false)
     ∧ ∀ ok, EvDeferredOperations ok ∉ run.2).
Proof.
  split; [apply deployment_stops_at_failure|].
  cbv zeta. unfold run_main. cbn [fst snd].
  destruct (main_digest cli {| world := w; trace := [] |})
    as [(r & events & -> & Hno & _)
       |(appDir & events & found & extra & _ & _ & _ & _ & _ & Hno & ->)].
  - simpl. intros Hin. by apply (no_deployment_not_elem _ _ Hno) in Hin.
  - intros Hin.
    match goal with
    | |- context [deployment sys ?f ?ms ?s] =>
        destruct (deployment_run sys f ms s) as (evs & Ht & _);
        pose proof (deployment_stops_at_failure sys f ms s module_name index)
          as Hstop
    end.
    cbv zeta in Hstop. rewrite (new_events_app _ _ _ Ht) in Hstop.
    rewrite Ht in Hin |- *. simpl in Hin |- *.
    apply elem_of_app in Hin as [Hin|Hin];
      [by apply (no_deployment_not_elem _ _ Hno) in Hin|].
    destruct (Hstop Hin) as (-> & ev0 & _ & _ & _ & _ & _ & -> & _ & _ & Hdeferred).
    split; [done|]. split.
    + by rewrite app_assoc, last_snoc.
    + intros ok Hd. apply elem_of_app in Hd as [Hd|Hd].
      * by apply (no_deployment_not_elem _ _ Hno) in Hd.
      * by apply Hdeferred in Hd.
Qed.

(** ** The lists of modules *)

Lemma occurrences_app m (l1 l2 : list QtModule) :
  occurrences m (l1 ++ l2) = (occurrences m l1 + occurrences m l2)%nat.
Proof. apply count_occ_app. Qed.

Lemma occurrences_filter (P : QtModule → Prop) `{∀ x, Decision (P x)} m l :
  occurrences m (filter P l) = if decide (P m) then occurrences m l else 0%nat.
Proof.
  unfold occurrences. induction l as [|x l IH].
  - by destruct (decide (P m)).
  - rewrite filter_cons. destruct (decide (P x)) as [Hx|Hx]; simpl.
    + destruct (QtModule_eq_dec x m) as [->|Hne];
        rewrite IH; destruct (decide (P m)); done.
    + rewrite IH. destruct (QtModule_eq_dec x m) as [->|Hne]; [|done].
      by destruct (decide (P m)).
Qed.

Lemma occurrences_copy_if_matches names copied m matched :
  copy_if_matches QtModules sys names = Some copied →
  matchesAny sys names m = Some matched →
  occurrences m copied = if matched then occurrences m QtModules else 0%nat.
Proof.
  intros Hcopy Hm. apply copy_if_Some in Hcopy as [-> _].
  rewrite occurrences_filter, Hm.
  destruct matched; [by rewrite decide_True | by rewrite decide_False].
Qed.

Lemma occurrences_NoDup m (l : list QtModule) :
  NoDup l → m ∈ l → occurrences m l = 1%nat.
Proof.
  intros Hnd Hin. unfold occurrences.
  apply NoDup_ListNoDup in Hnd.
  apply (proj1 (NoDup_count_occ' QtModule_eq_dec l) Hnd m).
  by apply list_elem_of_In.
Qed.

(** C5, as amended: the found list and the extra list are computed
    independently and never deduplicated against each other.  With a
    catalog without duplicates, in a run that computes both lists, a module
    that a library name matches occurs exactly once in found; it occurs in
    extra once for each of the two token lists (the [-p] tokens, the
    environment tokens) that has a token matching it; and the deployment
    list holds it once more than extra does, which is twice when exactly
    one token list matches it. *)
Theorem found_and_extra_are_independent libraryNames cli m found extra :
  NoDup QtModules → m ∈ QtModules →
  matchesAny sys (set_begin_to_end libraryNames) m = Some true →
  foundQtModules QtModules sys libraryNames = Some found →
  extraQtModules QtModules sys cli = Some extra →
  ∃ env by_cli by_env,
    extraPluginsFromEnv sys = Some env
    ∧ matchesAny sys (extraPlugins cli) m = Some by_cli
    ∧ matchesAny sys env m = Some by_env
    ∧ occurrences m found = 1%nat
    ∧ occurrences m extra = (Nat.b2n by_cli + Nat.b2n by_env)%nat
    ∧ occurrences m (qtModulesToDeploy found extra)
      = (1 + occurrences m extra)%nat
    ∧ (by_cli ≠ by_env →
       occurrences m extra = 1%nat
       ∧ occurrences m (qtModulesToDeploy found extra) = 2%nat).
Proof.
  intros Hnd Hin Hlib Hfound Hextra.
  pose proof (occurrences_NoDup m QtModules Hnd Hin) as Hone.
  apply extraQtModules_Some in Hextra
    as (env & from_cli & from_env & Henv & Hcli & Hfrom_env & ->).
  destruct (copy_if_Some _ _ _ Hcli) as [_ Hall_cli].
  destruct (copy_if_Some _ _ _ Hfrom_env) as [_ Hall_env].
  rewrite Forall_forall in Hall_cli, Hall_env.
  destruct (Hall_cli m Hin) as [by_cli Hby_cli].
  destruct (Hall_env m Hin) as [by_env Hby_env].
  exists env, by_cli, by_env.
  assert (Hfound1 : occurrences m found = 1%nat).
  { unfold foundQtModules in Hfound.
    by rewrite (occurrences_copy_if_matches _ _ _ _ Hfound Hlib). }
  assert (Hextra1 : occurrences m (from_cli ++ from_env)
            = (Nat.b2n by_cli + Nat.b2n by_env)%nat).
  { rewrite occurrences_app,
      (occurrences_copy_if_matches _ _ _ _ Hcli Hby_cli),
      (occurrences_copy_if_matches _ _ _ _ Hfrom_env Hby_env), Hone.
    by destruct by_cli, by_env. }
  assert (Hall : occurrences m (qtModulesToDeploy found (from_cli ++ from_env))
            = (1 + occurrences m (from_cli ++ from_env))%nat).
  { unfold qtModulesToDeploy. by rewrite occurrences_app, Hfound1. }
  split; [done|]. split; [done|]. split; [done|]. split; [done|].
  split; [done|]. split; [done|].
  intros Hone_source. rewrite Hall, Hextra1.
  by destruct by_cli, by_env.
Qed.

(** C8: the list handed to the deployment is the found list, then the
    matches of the [-p] tokens, then the matches of the environment tokens;
    each of the three parts keeps the order of the catalog; and a run that
    completes has computed the three parts and deploys the modules in
    exactly this order. *)
Theorem deployment_order cli appDir w :
  (∀ found env from_cli from_env,
     foundQtModules QtModules sys (collectLibraryNames sys appDir) = Some found →
     extraPluginsFromEnv sys = Some env →
     copy_if_matches QtModules sys (extraPlugins cli) = Some from_cli →
     copy_if_matches QtModules sys env = Some from_env →
     extraQtModules QtModules sys cli = Some (from_cli ++ from_env)
     ∧ qtModulesToDeploy found (from_cli ++ from_env)
       = found ++ from_cli ++ from_env
     ∧ found `sublist_of` QtModules
     ∧ from_cli `sublist_of` QtModules
     ∧ from_env `sublist_of` QtModules)
  ∧ (reaches_resolution sys cli appDir →
     (run_main QtModules sys cli w).1 = Returned 0 →
     ∃ found env from_cli from_env,
       foundQtModules QtModules sys (collectLibraryNames sys appDir) = Some found
       ∧ extraPluginsFromEnv sys = Some env
       ∧ copy_if_matches QtModules sys (extraPlugins cli) = Some from_cli
       ∧ copy_if_matches QtModules sys env = Some from_env
       ∧ module_headers (run_main QtModules sys cli w).2
         = map name (found ++ from_cli ++ from_env)).
Proof.
  split.
  - intros found env from_cli from_env Hfound Henv Hcli Hfrom_env.
    split; [apply extraQtModules_Some; by exists env, from_cli, from_env|].
    split; [done|].
    split; [by apply (copy_if_matches_sublist _ _ Hfound)|].
    split; by eapply copy_if_matches_sublist.
  - intros Hreach. unfold run_main.
    destruct (foundQtModules QtModules sys (collectLibraryNames sys appDir))
      as [found|] eqn:Hfound.
    2:{ destruct (main_without_lists cli appDir {| world := w; trace := [] |}
                    Hreach (or_introl Hfound)) as [fault ->]. done. }
    destruct (extraQtModules QtModules sys cli) as [extra|] eqn:Hextra.
    2:{ destruct (main_without_lists cli appDir {| world := w; trace := [] |}
                    Hreach (or_intror Hextra)) as [fault ->]. done. }
    rewrite (main_from_lists cli appDir _ found extra Hreach Hfound Hextra).
    apply extraQtModules_Some in Hextra
      as (env & from_cli & from_env & Henv & Hcli & Hfrom_env & ->).
    unfold main_after_resolution.
    destruct (bool_decide (_ = []) && _); [done|].
    destruct (bool_decide (findQmake sys = _)); [done|].
    destruct (sys_exists sys _) as [[|]|]; [|done|done].
    unfold main_after_checks; cbv zeta.
    destruct (bool_decide (queryQmake_value sys (findQmake sys) = ∅)); [done|].
    match goal with
    | |- context [deployment sys ?f ?ms ?s] =>
        destruct (deployment_run sys f ms s) as (events & Ht & Hcases)
    end.
    rewrite Ht.
    destruct Hcases as [(-> & _)|(ev0 & ev1 & -> & _ & Hhead & Hafter & Hres)];
      [done|].
    intros _. exists found, env, from_cli, from_env.
    split; [done|]. split; [done|]. split; [done|]. split; [done|].
    simpl. rewrite !module_headers_app, Hhead.
    rewrite (after_loop_no_headers _ Hafter), app_nil_r.
    rewrite (no_deployment_no_headers _ no_deployment_copyright).
    rewrite (no_deployment_no_headers _ (no_deployment_query _ _)).
    simpl. by rewrite app_nil_r.
Qed.

End Outcomes.

(** ** The theorems at work on the sample installation *)

Lemma sample_reaches_resolution {World Deployer} (sys : System World Deployer)
      plugins :
  sys_is_directory sys "AppDir" = Some true →
  reaches_resolution sys (Sample.command_line plugins) "AppDir".
Proof. intros Hdir. by repeat split. Qed.

Lemma deployment_fail_fast_witness :
  let sys := Sample.sys_webengine_fails in
  let cli := Sample.command_line ["sqlite"; "webengine"; "webenginecore"] in
  let r := deployment sys (factory_of ∅)
             [Sample.sqlite; Sample.webengine; Sample.widgets] Sample.start in
  let run := run_main Sample.catalog sys cli tt in
  (EvDeploy "webengine" 0 false ∈ new_events Sample.start r.2
   ∧ r.1 = Exit 1
   ∧ ∀ ok, EvDeferredOperations ok ∉ new_events Sample.start r.2)
  ∧ (EvDeploy "webengine" 0 false ∈ run.2
     ∧ run.1 = Returned 1
     ∧ last run.2 = Some (EvDeploy "webengine" 0 false)).
Proof.
  intros sys cli r run.
  assert (Hin : EvDeploy "webengine" 0 false ∈ new_events Sample.start r.2).
  { apply (bool_decide_unpack _). vm_compute. exact I. }
  assert (Hrun : EvDeploy "webengine" 0 false ∈ run.2).
  { apply (bool_decide_unpack _). vm_compute. exact I. }
  pose proof (deployment_fail_fast Sample.catalog sys (factory_of ∅)
                [Sample.sqlite; Sample.webengine; Sample.widgets] Sample.start
                cli tt "webengine" 0%nat) as H.
  cbv zeta in H. destruct H as [Hphase Hmain].
  destruct (Hphase Hin)
    as (Hexit & ev0 & pre & m & post & _ & _ & _ & _ & _ & Hdeferred).
  destruct (Hmain Hrun) as (Hcode & Hlast & _).
  exact (conj (conj Hin (conj Hexit Hdeferred)) (conj Hrun (conj Hcode Hlast))).
Defined.

(** The run behind the witness: the module after the failing one is never
    started and no closing stage runs. *)
Example deployment_fail_fast_run :
  run_main Sample.catalog Sample.sys_webengine_fails
           (Sample.command_line ["sqlite"; "webengine"; "webenginecore"]) tt
  = (Returned 1,
     [EvSetenv "LD_LIBRARY_PATH" "/opt/qt/lib:";
      EvSetenv "PATH" "/opt/qt/bin:";
      EvModule "widgets"; EvDeploy "widgets" 0 true;
      EvModule "sqlite"; EvDeploy "sqlite" 0 true;
      EvModule "webenginecore"; EvDeploy "webenginecore" 0 true;
      EvModule "webengine"; EvDeploy "webengine" 0 false]).
Proof. vm_compute. reflexivity. Qed.


Lemma empty_lookup_is_fatal_witness :
  let silent := Sample.sys_qmake_silent in
  let partial := Sample.sys_version_only in
  let cli := Sample.command_line [] in
  (queryQmake_value silent (findQmake silent) = ∅
   ∧ reaches_resolution silent cli "AppDir"
   ∧ foundQtModules Sample.catalog silent (collectLibraryNames silent "AppDir")
     = Some [Sample.widgets]
   ∧ extraQtModules Sample.catalog silent cli = Some []
   ∧ findQmake silent ≠ EmptyString
   ∧ sys_exists silent (findQmake silent) = Some true
   ∧ no_deployment (run_main Sample.catalog silent cli tt).2
   ∧ (run_main Sample.catalog silent cli tt).1 = Returned 1
   ∧ last (run_main Sample.catalog silent cli tt).2
     = Some (EvLog LD_ERROR ["Failed to query Qt paths using qmake -query"]))
  ∧ (reaches_resolution partial cli "AppDir"
     ∧ queryQmake_value partial (findQmake partial) ≠ ∅
     ∧ queryQmake_value partial (findQmake partial) !! "QT_INSTALL_PLUGINS" = None
     ∧ at_key (queryQmake_value partial (findQmake partial)) "QT_INSTALL_PLUGINS"
       = EmptyString
     ∧ ∃ events,
         no_deployment events
         ∧ main Sample.catalog partial cli {| world := tt; trace := [] |}
           = deployment partial
               (factory_of (queryQmake_value partial (findQmake partial)))
               (qtModulesToDeploy [Sample.widgets] [])
               {| world := tt; trace := events |}).
Proof.
  intros silent partial cli. split.
  - assert (Hempty : queryQmake_value silent (findQmake silent) = ∅)
      by (vm_compute; reflexivity).
    assert (Hreach : reaches_resolution silent cli "AppDir")
      by (by apply sample_reaches_resolution).
    assert (Hfound : foundQtModules Sample.catalog silent
                       (collectLibraryNames silent "AppDir")
                     = Some [Sample.widgets]) by (vm_compute; reflexivity).
    assert (Hextra : extraQtModules Sample.catalog silent cli = Some [])
      by (vm_compute; reflexivity).
    assert (Hboth : ¬ ([Sample.widgets] = [] ∧ @nil QtModule = [])) by (by intros [? _]).
    assert (Hqmake : findQmake silent ≠ EmptyString) by (vm_compute; discriminate).
    assert (Hexists : sys_exists silent (findQmake silent) = Some true)
      by (vm_compute; reflexivity).
    pose proof (empty_lookup_is_fatal Sample.catalog silent cli tt) as H.
    cbv zeta in H. destruct H as (Hfatal & Hquery & _).
    destruct (Hfatal Hempty) as (Hno & _).
    destruct (Hquery "AppDir" _ _ Hreach Hfound Hextra Hboth Hqmake Hexists)
      as [Hstatus _].
    destruct (Hstatus Hempty) as [Hcode Hlast].
    exact (conj Hempty (conj Hreach (conj Hfound (conj Hextra (conj Hqmake
             (conj Hexists (conj Hno (conj Hcode Hlast)))))))).
  - assert (Hreach : reaches_resolution partial cli "AppDir")
      by (by apply sample_reaches_resolution).
    assert (Hvars : queryQmake_value partial (findQmake partial) ≠ ∅).
    { intros Heq. apply (f_equal (λ m, m !! "QT_VERSION")) in Heq.
      vm_compute in Heq. discriminate Heq. }
    assert (Hkey : queryQmake_value partial (findQmake partial)
                     !! "QT_INSTALL_PLUGINS" = None)
      by (vm_compute; reflexivity).
    assert (Hfound : foundQtModules Sample.catalog partial
                       (collectLibraryNames partial "AppDir")
                     = Some [Sample.widgets]) by (vm_compute; reflexivity).
    assert (Hextra : extraQtModules Sample.catalog partial cli = Some [])
      by (vm_compute; reflexivity).
    assert (Hboth : ¬ ([Sample.widgets] = [] ∧ @nil QtModule = [])) by (by intros [? _]).
    assert (Hqmake : findQmake partial ≠ EmptyString) by (vm_compute; discriminate).
    assert (Hexists : sys_exists partial (findQmake partial) = Some true)
      by (vm_compute; reflexivity).
    pose proof (empty_lookup_is_fatal Sample.catalog partial cli tt) as H.
    cbv zeta in H. destruct H as (_ & Hquery & Hmissing).
    destruct (Hquery "AppDir" _ _ Hreach Hfound Hextra Hboth Hqmake Hexists)
      as [_ Hgoes].
    exact (conj Hreach (conj Hvars (conj Hkey (conj (Hmissing _ Hkey)
             (Hgoes Hvars))))).
Defined.

(** C3, as stated, fails when the lookup is not empty but lacks the
    required keys: with a [qmake -query] that prints only the Qt version,
    the lookup holds none of the seven directories, and the run deploys the
    module with empty paths and ends with status 0. *)
Lemma missing_keys_are_not_fatal :
  let sys := Sample.sys_version_only in
  queryQmake_value sys (findQmake sys) = {[ "QT_VERSION" := "5.15.2" ]}
  ∧ Forall (λ key, queryQmake_value sys (findQmake sys) !! key = None)
      ["QT_INSTALL_PLUGINS"; "QT_INSTALL_LIBEXECS"; "QT_INSTALL_DATA";
       "QT_INSTALL_TRANSLATIONS"; "QT_INSTALL_BINS"; "QT_INSTALL_LIBS";
       "QT_INSTALL_QML"]
  ∧ run_main Sample.catalog sys (Sample.command_line []) tt
    = (Returned 0,
       [EvSetenv "LD_LIBRARY_PATH" ":"; EvSetenv "PATH" ":";
        EvModule "widgets"; EvDeploy "widgets" 0 true;
        EvDeployTranslations true; EvDeferredOperations true;
        EvQtConf true; EvAppRunHook true]).
Proof.
  intros sys. split; [vm_compute; reflexivity|]. split.
  - repeat constructor; vm_compute; reflexivity.
  - vm_compute. reflexivity.
Qed.

Lemma found_and_extra_are_independent_witness :
  let sys := Sample.sys_widgets_env in
  let cli := Sample.command_line [] in
  let found := [Sample.widgets] in
  let extra := [Sample.widgets] in
  NoDup Sample.catalog
  ∧ Sample.widgets ∈ Sample.catalog
  ∧ matchesAny sys (set_begin_to_end (collectLibraryNames sys "AppDir"))
      Sample.widgets = Some true
  ∧ foundQtModules Sample.catalog sys (collectLibraryNames sys "AppDir")
    = Some found
  ∧ extraQtModules Sample.catalog sys cli = Some extra
  ∧ matchesAny sys (extraPlugins cli) Sample.widgets = Some false
  ∧ occurrences Sample.widgets found = 1%nat
  ∧ occurrences Sample.widgets extra = 1%nat
  ∧ occurrences Sample.widgets (qtModulesToDeploy found extra) = 2%nat.
Proof.
  intros sys cli found extra.
  assert (Hnd : NoDup Sample.catalog)
    by (apply (bool_decide_unpack _); vm_compute; exact I).
  assert (Hin : Sample.widgets ∈ Sample.catalog)
    by (apply (bool_decide_unpack _); vm_compute; exact I).
  assert (Hlib : matchesAny sys (set_begin_to_end (collectLibraryNames sys "AppDir"))
                   Sample.widgets = Some true) by (vm_compute; reflexivity).
  assert (Hfound : foundQtModules Sample.catalog sys
                     (collectLibraryNames sys "AppDir") = Some found)
    by (vm_compute; reflexivity).
  assert (Hextra : extraQtModules Sample.catalog sys cli = Some extra)
    by (vm_compute; reflexivity).
  assert (Hcli : matchesAny sys (extraPlugins cli) Sample.widgets = Some false)
    by (vm_compute; reflexivity).
  destruct (found_and_extra_are_independent Sample.catalog sys
              (collectLibraryNames sys "AppDir") cli Sample.widgets found extra
              Hnd Hin Hlib Hfound Hextra)
    as (env & by_cli & by_env & Henv & Hby_cli & Hby_env & Hone & _ & _ & Honce).
  rewrite Hcli in Hby_cli. injection Hby_cli as <-.
  assert (Hby_env' : by_env = true).
  { revert Hby_env. revert Henv. vm_compute. intros [= <-]. vm_compute.
    by intros [= <-]. }
  subst by_env.
  destruct (Honce ltac:(discriminate)) as [Hextra1 Hall].
  exact (conj Hnd (conj Hin (conj Hlib (conj Hfound (conj Hextra (conj Hcli
          (conj Hone (conj Hextra1 Hall)))))))).
Defined.

(** C5, as stated, fails for a module that both token lists name: with the
    widgets library in the bundle, [-p widgets] and
    [EXTRA_QT_PLUGINS=widgets], the module [widgets] is matched by the
    library closure and by an explicit token, yet it occurs twice in extra
    and three times in the deployment list. *)
Lemma module_of_both_token_lists_is_twice_in_extra :
  let sys := Sample.sys_widgets_env in
  let cli := Sample.command_line ["widgets"] in
  ∃ found extra,
    foundQtModules Sample.catalog sys (collectLibraryNames sys "AppDir")
    = Some found
    ∧ extraQtModules Sample.catalog sys cli = Some extra
    ∧ matchesAny sys (set_begin_to_end (collectLibraryNames sys "AppDir"))
        Sample.widgets = Some true
    ∧ matchesAny sys (extraPlugins cli) Sample.widgets = Some true
    ∧ occurrences Sample.widgets found = 1%nat
    ∧ occurrences Sample.widgets extra = 2%nat
    ∧ occurrences Sample.widgets (qtModulesToDeploy found extra) = 3%nat.
Proof.
  intros sys cli. exists [Sample.widgets], [Sample.widgets; Sample.widgets].
  vm_compute. repeat split.
Qed.

Lemma deployment_order_witness :
  let sys := Sample.sys_widgets_env in
  let cli := Sample.command_line ["webengine"; "sqlite"] in
  reaches_resolution sys cli "AppDir"
  ∧ (run_main Sample.catalog sys cli tt).1 = Returned 0
  ∧ foundQtModules Sample.catalog sys (collectLibraryNames sys "AppDir")
    = Some [Sample.widgets]
  ∧ copy_if_matches Sample.catalog sys (extraPlugins cli)
    = Some [Sample.sqlite; Sample.webengine]
  ∧ (∃ env, extraPluginsFromEnv sys = Some env
            ∧ copy_if_matches Sample.catalog sys env = Some [Sample.widgets])
  ∧ [Sample.sqlite; Sample.webengine] `sublist_of` Sample.catalog
  ∧ module_headers (run_main Sample.catalog sys cli tt).2
    = map name ([Sample.widgets] ++ [Sample.sqlite; Sample.webengine]
                ++ [Sample.widgets]).
Proof.
  intros sys cli.
  assert (Hreach : reaches_resolution sys cli "AppDir")
    by (by apply sample_reaches_resolution).
  assert (Hcode : (run_main Sample.catalog sys cli tt).1 = Returned 0)
    by (vm_compute; reflexivity).
  pose proof (deployment_order Sample.catalog sys cli "AppDir" tt) as [Hlists Hrun].
  destruct (Hrun Hreach Hcode)
    as (found & env & from_cli & from_env & Hfound & Henv & Hcli & Hfrom_env
        & Hheaders).
  destruct (Hlists found env from_cli from_env Hfound Henv Hcli Hfrom_env)
    as (_ & _ & _ & Hsub & _).
  assert (Hfound' : foundQtModules Sample.catalog sys
                      (collectLibraryNames sys "AppDir") = Some [Sample.widgets])
    by (vm_compute; reflexivity).
  assert (Hcli' : copy_if_matches Sample.catalog sys (extraPlugins cli)
                  = Some [Sample.sqlite; Sample.webengine])
    by (vm_compute; reflexivity).
  assert (Hfrom_env' : copy_if_matches Sample.catalog sys env
                       = Some [Sample.widgets]).
  { revert Henv. vm_compute. intros [= <-]. reflexivity. }
  rewrite Hfound' in Hfound. injection Hfound as <-.
  rewrite Hcli' in Hcli. injection Hcli as <-.
  rewrite Hfrom_env' in Hfrom_env. injection Hfrom_env as <-.
  exact (conj Hreach (conj Hcode (conj Hfound' (conj Hcli'
           (conj (ex_intro _ env (conj Henv Hfrom_env'))
              (conj Hsub Hheaders)))))).
Defined.

(** The order of that run: the found module, then the matches of the
    [-p] tokens in catalog order, then the match of the environment. *)
Example deployment_order_run :
  module_headers
    (run_main Sample.catalog Sample.sys_widgets_env
       (Sample.command_line ["webengine"; "sqlite"]) tt).2
  = ["widgets"; "sqlite"; "webengine"; "widgets"].
Proof. vm_compute. reflexivity. Qed.

(** C2: with [EXTRA_QT_PLUGINS=sqlite;webenginecore], an empty bundle and
    no [-p] flag, the value is not split at the semicolons.  [main] takes
    59 bytes from the pointer and splits them at blanks, so the only token
    is the value, its terminator and the bytes behind it; it matches no
    module, extra is empty and the run ends with the error that there is
    nothing to deploy.  The same two names given as [-p] tokens yield
    [sqlite] and [webenginecore]. *)
Theorem extra_plugins_from_env_not_split :
  let sys := Sample.sys_env_list in
  let cli := Sample.command_line [] in
  ∃ token,
    string_of_buffer (Sample.env_memory "sqlite;webenginecore") 59 = Some token
    ∧ extraPluginsFromEnv sys = Some [token]
    ∧ c_text token = "sqlite;webenginecore"
    ∧ foundQtModules Sample.catalog sys (collectLibraryNames sys "AppDir")
      = Some []
    ∧ extraQtModules Sample.catalog sys cli = Some []
    ∧ run_main Sample.catalog sys cli tt = (Returned 1, [nothing_to_deploy_error])
    ∧ extraQtModules Sample.catalog Sample.sys_empty_bundle
        (Sample.command_line ["sqlite"; "webenginecore"])
      = Some [Sample.sqlite; Sample.webenginecore].
Proof.
  intros sys cli. eexists. split; [vm_compute; reflexivity|].
  vm_compute. repeat split.
Qed.

(** What the call does accept: names separated by blanks, within the first
    59 bytes. *)
Example extra_plugins_from_env_blank_separated :
  let sys := Sample.system (Sample.env_extra_plugins "sqlite webenginecore") []
               [] Sample.qmake_output Sample.one_deployer in
  extraQtModules Sample.catalog sys (Sample.command_line [])
  = Some [Sample.sqlite; Sample.webenginecore].
Proof. vm_compute. reflexivity. Qed.

(** Whatever delimiter [split] falls back to, the length 59 cuts a longer
    value: a name behind the 59th byte is never seen. *)
Lemma extra_plugins_from_env_cut_at_59 (delim : ascii) :
  let value :=
    "/opt/Qt/5.15.2/gcc_64/plugins/sqldrivers/libqsqlite.so;/opt/x;widgets" in
  let sys := Sample.sys_empty_bundle in
  ∃ buffer from_env,
    string_of_buffer (Sample.env_memory value) (nat_of_ascii ";") = Some buffer
    ∧ copy_if_matches Sample.catalog sys (split buffer delim) = Some from_env
    ∧ Sample.widgets ∉ from_env.
Proof.
  intros value sys. eexists. 
  destruct delim as [[] [] [] [] [] [] [] []];
    (eexists; split; [vm_compute; reflexivity|];
     split; [vm_compute; reflexivity|];
     apply (bool_decide_unpack _); vm_compute; exact I).
Qed.

(** With fewer than 59 readable bytes behind the pointer, the read of line
    139 leaves the mapped memory and the run is killed there. *)
Example extra_plugins_from_env_short_memory :
  let sys := SampleFailures.sys_short_memory in
  sys_getenv sys "EXTRA_QT_PLUGINS"
  = Some ("widgets" +:+ Sample.nul +:+ "SHELL=/bin/sh" +:+ Sample.nul)
  ∧ extraPluginsFromEnv sys = None
  ∧ run_main Sample.catalog sys (Sample.command_line []) tt
    = (Killed memory_fault, []).
Proof. vm_compute. repeat split. Qed.

(** * Further properties of util.cpp, util.h and main.cpp *)

(** ** Strings *)

#[local] Arguments String.append !_ _ / : simpl nomatch.

Lemma str_app_assoc (a b c : string) : (a +:+ b) +:+ c = a +:+ (b +:+ c).
Proof. induction a as [|x a IH]; simpl; [done | by rewrite IH]. Qed.

Lemma str_app_char c (s : string) : String c EmptyString +:+ s = String c s.
Proof. reflexivity. Qed.

Lemma str_app_cons c (a b : string) : String c a +:+ b = String c (a +:+ b).
Proof. reflexivity. Qed.

Lemma str_app_nil_r (a : string) : a +:+ EmptyString = a.
Proof. induction a as [|x a IH]; simpl; [done | by rewrite IH]. Qed.

Lemma str_length_app (a b : string) :
  String.length (a +:+ b) = (String.length a + String.length b)%nat.
Proof. induction a as [|x a IH]; simpl; [done | by rewrite IH]. Qed.

Lemma str_app_empty (a b : string) :
  a +:+ b = EmptyString → a = EmptyString ∧ b = EmptyString.
Proof. destruct a; [done | discriminate]. Qed.

Lemma has_char_app c (a b : string) :
  has_char c (a +:+ b) = has_char c a || has_char c b.
Proof.
  induction a as [|x a IH]; simpl; [done|]. by rewrite IH, orb_assoc.
Qed.

Lemma nul_free_has_char s : nul_free s ↔ has_char NUL s = false.
Proof.
  induction s as [|c s IH]; simpl; [done|].
  rewrite orb_false_iff, Ascii.eqb_neq, IH. done.
Qed.

Lemma c_text_nul_free s : nul_free (c_text s).
Proof.
  induction s as [|c s IH]; simpl; [done|].
  destruct (Ascii.eqb_spec c NUL); simpl; done.
Qed.

Lemma c_text_has_char c s : has_char c (c_text s) = true → has_char c s = true.
Proof.
  induction s as [|a s IH]; simpl; [done|].
  destruct (Ascii.eqb a NUL); simpl; [done|].
  destruct (Ascii.eqb a c); simpl; [done | exact IH].
Qed.

Lemma is_prefix_same_length p s :
  is_prefix p s → String.length p = String.length s → s = p.
Proof.
  intros [rest ->] Hlen. rewrite str_length_app in Hlen.
  destruct rest; [apply str_app_nil_r | simpl in Hlen; lia].
Qed.

Lemma advance_app front rest :
  advance (front +:+ rest) (String.length front) = rest.
Proof. induction front as [|c front IH]; simpl; done. Qed.

Lemma advance_split s :
  ∀ k, (k ≤ String.length s)%nat →
       ∃ front, s = front +:+ advance s k
                ∧ String.length (advance s k) = (String.length s - k)%nat.
Proof.
  induction s as [|c s IH]; intros k Hk; simpl in Hk.
  - assert (k = 0%nat) as -> by lia. by exists EmptyString.
  - destruct k as [|k]; [by exists EmptyString|].
    destruct (IH k) as (front & Hs & Hlen); [lia|].
    exists (String c front). simpl. split; [by rewrite <- Hs | done].
Qed.

(** X1: for every [str] and every [suffix] without a NUL byte,
    [strEndsWith str suffix] is true exactly when [str] ends with
    [suffix].  For every pair of strings: a string that ends with [suffix]
    is accepted, a [str] shorter than [suffix] is rejected, and the empty
    suffix is accepted. *)
Theorem strEndsWith_spec (str suffix : string) :
  (nul_free suffix →
   (strEndsWith str suffix = true ↔ ∃ front, str = front +:+ suffix))
  ∧ ((∃ front, str = front +:+ suffix) → strEndsWith str suffix = true)
  ∧ ((String.length str < String.length suffix)%nat →
     strEndsWith str suffix = false)
  ∧ strEndsWith str EmptyString = true.
Proof.
  assert (Hends : (∃ front, str = front +:+ suffix) →
                  strEndsWith str suffix = true).
  { intros [front ->]. unfold strEndsWith. rewrite str_length_app.
    destruct (Nat.ltb_spec (String.length front + String.length suffix)
                           (String.length suffix)); [lia|].
    replace (String.length front + String.length suffix - String.length suffix)%nat
      with (String.length front) by lia.
    pose proof (strncmp_of_prefix suffix EmptyString) as Hsame.
    rewrite str_app_nil_r in Hsame. unfold c_str in *.
    by rewrite advance_app, Hsame. }
  split; [|split; [done|split]].
  - intros Hnf. split; [|done]. unfold strEndsWith.
    destruct (Nat.ltb_spec (String.length str) (String.length suffix)); [done|].
    rewrite Z.eqb_eq.
    destruct (advance_split str (String.length str - String.length suffix))
      as (front & Hstr & Hlen); [lia|].
    intros Hcmp.
    apply (strncmp_prefix suffix Hnf
             (advance str (String.length str - String.length suffix))) in Hcmp.
    apply is_prefix_same_length in Hcmp; [|lia].
    exists front. by rewrite <- Hcmp.
  - intros Hlt. unfold strEndsWith.
    by destruct (Nat.ltb_spec (String.length str) (String.length suffix)); [|lia].
  - unfold strEndsWith. simpl.
    by destruct (Nat.ltb_spec (String.length str) 0); [lia|].
Qed.

Lemma strEndsWith_spec_witness :
  nul_free ".so"
  ∧ (strEndsWith "libqxcb.so" ".so" = true ↔ ∃ front, "libqxcb.so" = front +:+ ".so")
  ∧ strEndsWith "libqxcb.so" ".so" = true
  ∧ (String.length "so" < String.length ".so")%nat
  ∧ strEndsWith "so" ".so" = false.
Proof.
  assert (Hnf : nul_free ".so") by (apply nul_freeb_spec; reflexivity).
  assert (Hends : ∃ front, "libqxcb.so" = front +:+ ".so") by (by exists "libqxcb").
  assert (Hlt : (String.length "so" < String.length ".so")%nat) by (simpl; lia).
  destruct (strEndsWith_spec "libqxcb.so" ".so") as (H1 & H2 & _).
  destruct (strEndsWith_spec "so" ".so") as (_ & _ & H3 & _).
  exact (conj Hnf (conj (H1 Hnf) (conj (H2 Hends) (conj Hlt (H3 Hlt))))).
Defined.

(** ** The [getline] loop *)

Lemma getline_loop_no_delim delim stream :
  ∀ cur, has_char delim cur = false →
         Forall (λ part, has_char delim part = false)
                (getline_loop cur stream delim).
Proof.
  induction stream as [|c rest IH]; intros cur Hcur; simpl.
  - destruct cur; by repeat constructor.
  - destruct (Ascii.eqb_spec c delim) as [->|Hne].
    + constructor; [done | by apply IH].
    + apply IH. rewrite has_char_app, Hcur. simpl.
      by rewrite orb_false_r, Ascii.eqb_neq.
Qed.

Lemma getline_loop_char_free c delim stream :
  ∀ cur, has_char c cur = false → has_char c stream = false →
         Forall (λ part, has_char c part = false)
                (getline_loop cur stream delim).
Proof.
  induction stream as [|a rest IH]; intros cur Hcur Hstream; simpl.
  - destruct cur; by repeat constructor.
  - simpl in Hstream. apply orb_false_iff in Hstream as [Ha Hrest].
    destruct (Ascii.eqb a delim).
    + constructor; [done | by apply IH].
    + apply IH; [|done]. rewrite has_char_app, Hcur. simpl.
      by rewrite Ha.
Qed.

Lemma getline_loop_part delim part :
  has_char delim part = false →
  ∀ cur rest,
    getline_loop cur (part +:+ String delim rest) delim
    = (cur +:+ part) :: getline_loop EmptyString rest delim.
Proof.
  induction part as [|c part IH]; intros Hpart cur rest; simpl.
  - by rewrite Ascii.eqb_refl, str_app_nil_r.
  - simpl in Hpart. apply orb_false_iff in Hpart as [Hc Hpart].
    rewrite Hc, (IH Hpart), str_app_assoc. done.
Qed.

Lemma getline_loop_last delim part :
  has_char delim part = false →
  ∀ cur, cur +:+ part ≠ EmptyString →
         getline_loop cur part delim = [cur +:+ part].
Proof.
  induction part as [|c part IH]; intros Hpart cur Hne; simpl.
  - rewrite str_app_nil_r in *. by destruct cur.
  - simpl in Hpart. apply orb_false_iff in Hpart as [Hc Hpart].
    rewrite Hc, (IH Hpart), str_app_assoc; [done|].
    rewrite str_app_assoc. simpl. intros H.
    apply str_app_empty in H as [_ H]. discriminate H.
Qed.

Lemma getline_loop_nil delim stream cur :
  getline_loop cur stream delim = [] → cur = EmptyString ∧ stream = EmptyString.
Proof.
  revert cur. induction stream as [|c rest IH]; intros cur; simpl.
  - by destruct cur.
  - destruct (Ascii.eqb c delim); [done|]. intros H. apply IH in H as [H _].
    apply str_app_empty in H as [_ H]. discriminate H.
Qed.

(** ** join *)

Lemma join_foldl (first : string) rest :
  ∀ front,
    foldl (λ rv s, rv +:+ " " +:+ s) (front +:+ first) rest
    = front +:+ foldl (λ rv s, rv +:+ " " +:+ s) first rest.
Proof.
  revert first. induction rest as [|s rest IH]; intros first front; simpl; [done|].
  rewrite <- IH. by rewrite str_app_assoc.
Qed.

Lemma join_cons_cons first second rest :
  join (first :: second :: rest) = first +:+ " " +:+ join (second :: rest).
Proof.
  unfold join. cbn [foldl].
  rewrite <- (str_app_assoc first " " second), join_foldl.
  apply str_app_assoc.
Qed.

(** X2: splitting at blanks undoes [join]: for every list of strings
    without blanks whose last string is not empty, the [getline] split of
    [join list] at the blank is the list again. *)
Theorem stringSplit_join (list : list string) :
  Forall (λ part, has_char " " part = false) list →
  last list ≠ Some EmptyString →
  stringSplit (join list) " " = list.
Proof.
  unfold stringSplit.
  induction list as [|first [|second rest] IH]; intros Hblank Hlast.
  - done.
  - simpl. apply Forall_cons in Hblank as [Hfirst _].
    rewrite (getline_loop_last " " first Hfirst EmptyString); [done|].
    simpl. intros ->. by apply Hlast.
  - rewrite join_cons_cons, str_app_char.
    apply Forall_cons in Hblank as [Hfirst Hrest].
    rewrite (getline_loop_part " " first Hfirst). simpl.
    f_equal. by apply IH.
Qed.

Lemma stringSplit_join_witness :
  Forall (λ part, has_char " " part = false) ["gui"; "svg"; "widgets"]
  ∧ last ["gui"; "svg"; "widgets"] ≠ Some EmptyString
  ∧ stringSplit (join ["gui"; "svg"; "widgets"]) " " = ["gui"; "svg"; "widgets"].
Proof.
  assert (H1 : Forall (λ part, has_char " " part = false) ["gui"; "svg"; "widgets"])
    by (by repeat constructor).
  assert (H2 : last ["gui"; "svg"; "widgets"] ≠ Some EmptyString) by discriminate.
  exact (conj H1 (conj H2 (stringSplit_join _ H1 H2))).
Defined.

Lemma chop_no_char c s : has_char c s = false → chop c s = s.
Proof.
  induction s as [|a s IH]; [done|]. simpl has_char. intros H.
  apply orb_false_iff in H as [Ha Hs].
  destruct s as [|b s]; [simpl; by rewrite Ha|].
  change (chop c (String a (String b s))) with (String a (chop c (String b s))).
  by rewrite IH.
Qed.

Lemma chop_cons c a s : s ≠ EmptyString → chop c (String a s) = String a (chop c s).
Proof. by destruct s. Qed.

Lemma chop_app c front s :
  s ≠ EmptyString → chop c (front +:+ s) = front +:+ chop c s.
Proof.
  intros Hs. induction front as [|a front IH]; [done|].
  rewrite !str_app_cons, chop_cons, IH; [done|].
  intros H. by apply str_app_empty in H as [_ H].
Qed.

Lemma join_cons_rest first rest :
  rest ≠ [] → join (first :: rest) = first +:+ " " +:+ join rest.
Proof. destruct rest; [done | intros _; apply join_cons_cons]. Qed.

Lemma join_getline_loop stream :
  ∀ cur, has_char " " cur = false →
         join (getline_loop cur stream " ") = chop " " (cur +:+ stream).
Proof.
  induction stream as [|c rest IH]; intros cur Hcur.
  - rewrite str_app_nil_r, chop_no_char by done. simpl. by destruct cur.
  - simpl getline_loop. destruct (Ascii.eqb_spec c " ") as [->|Hne].
    + destruct rest as [|b rest].
      * simpl. rewrite chop_app by done. simpl. by rewrite str_app_nil_r.
      * rewrite join_cons_rest.
        2:{ intros H. by apply getline_loop_nil in H as [_ H]. }
        rewrite (IH EmptyString) by done. simpl String.append at 2.
        rewrite chop_app by done. by rewrite chop_cons.
    + rewrite IH, str_app_assoc; [done|].
      rewrite has_char_app, Hcur. simpl. by rewrite orb_false_r, Ascii.eqb_neq.
Qed.

(** X3: joining undoes the split at blanks up to one trailing blank: for
    every string, [join] of its split at the blank is the string without
    its last byte when that byte is a blank, and the string itself
    otherwise. *)
Theorem join_stringSplit (s : string) :
  join (stringSplit s " ") = chop " " s.
Proof. unfold stringSplit. by rewrite join_getline_loop. Qed.

(** ** The lookup of [queryQmake] *)

Lemma plain_app (a b : string) : plain (a +:+ b) ↔ plain a ∧ plain b.
Proof.
  unfold plain. rewrite !has_char_app, !orb_false_iff. tauto.
Qed.

Lemma stringSplit_entry key value :
  has_char ":" key = false → has_char ":" value = false →
  value ≠ EmptyString →
  stringSplit (key +:+ ":" +:+ value) ":" = [key; value].
Proof.
  intros Hkey Hvalue Hne. unfold stringSplit.
  rewrite str_app_char, (getline_loop_part ":" key Hkey). simpl.
  by rewrite (getline_loop_last ":" value Hvalue EmptyString).
Qed.

Lemma query_output_cons entry rest :
  query_output (entry :: rest)
  = (entry.1 +:+ ":" +:+ entry.2) +:+ String newline (query_output rest).
Proof.
  simpl query_output. unfold query_line.
  by rewrite !str_app_assoc, (str_app_char newline).
Qed.

Lemma getlines_query_output entries :
  Forall (λ entry, plain entry.1 ∧ plain entry.2) entries →
  getlines (query_output entries)
  = (λ entry, entry.1 +:+ ":" +:+ entry.2) <$> entries.
Proof.
  unfold getlines. induction 1 as [|entry rest [[_ Hk] [_ Hv]] _ IH]; [done|].
  rewrite query_output_cons, getline_loop_part.
  - simpl. by rewrite IH.
  - rewrite !has_char_app, Hk, Hv. done.
Qed.

Lemma foldl_queryQmake_line_entries entries :
  Forall (λ entry, plain entry.1 ∧ plain entry.2 ∧ entry.2 ≠ EmptyString)
         entries →
  ∀ rv : gmap string string,
    foldl queryQmake_line rv ((λ entry, entry.1 +:+ ":" +:+ entry.2) <$> entries)
    = foldl (λ m entry, <[entry.1 := entry.2]> m) rv entries.
Proof.
  induction 1 as [|entry rest ([Hk _] & [Hv _] & Hne) _ IH]; intros rv; [done|].
  rewrite fmap_cons. cbn [foldl]. rewrite IH. f_equal.
  by apply queryQmake_line_two_parts, stringSplit_entry.
Qed.

Lemma foldl_insert_list_to_map (entries : list (string * string)) :
  NoDup entries.*1 →
  foldl (λ m entry, <[entry.1 := entry.2]> m) (∅ : gmap string string) entries
  = list_to_map entries.
Proof.
  induction entries as [|[key value] entries IH] using rev_ind; intros Hnd; [done|].
  rewrite fmap_app in Hnd. apply NoDup_app in Hnd as (Hnd & Hfresh & _).
  rewrite foldl_snoc, IH by done. simpl.
  rewrite list_to_map_snoc; [done|].
  intros Hin. apply (Hfresh _ Hin). simpl. left.
Qed.

(** X5: parsing undoes printing: for every lookup whose keys and values
    hold neither a colon nor a newline and whose values are not empty,
    [parseQmakeOutput] of the output with one line [key:value] per entry
    is the lookup again. *)
Theorem parseQmakeOutput_query_output (m : gmap string string) :
  (∀ key value, m !! key = Some value →
                plain key ∧ plain value ∧ value ≠ EmptyString) →
  parseQmakeOutput (query_output (map_to_list m)) = m.
Proof.
  intros Hplain.
  assert (Hall : Forall (λ entry, plain entry.1 ∧ plain entry.2
                                  ∧ entry.2 ≠ EmptyString) (map_to_list m)).
  { apply Forall_forall. intros [key value] Hin.
    apply elem_of_map_to_list in Hin. by apply Hplain. }
  unfold parseQmakeOutput. rewrite getlines_query_output.
  2:{ eapply Forall_impl; [exact Hall|]. simpl. tauto. }
  rewrite (foldl_queryQmake_line_entries _ Hall).
  rewrite foldl_insert_list_to_map by apply NoDup_fst_map_to_list.
  apply list_to_map_to_list.
Qed.

Lemma parseQmakeOutput_query_output_witness :
  let m : gmap string string :=
    {[ "QT_INSTALL_LIBS" := "/opt/qt/lib"; "QT_INSTALL_BINS" := "/opt/qt/bin" ]} in
  (∀ key value, m !! key = Some value →
                plain key ∧ plain value ∧ value ≠ EmptyString)
  ∧ parseQmakeOutput (query_output (map_to_list m)) = m.
Proof.
  intros m.
  assert (Hplain : ∀ key value, m !! key = Some value →
                     plain key ∧ plain value ∧ value ≠ EmptyString).
  { intros key value Hm. unfold m in Hm.
    apply lookup_insert_Some in Hm as [[<- <-]|[_ Hm]]; [by repeat split|].
    apply lookup_singleton_Some in Hm as [<- <-]. by repeat split. }
  exact (conj Hplain (parseQmakeOutput_query_output m Hplain)).
Defined.

Section Lookup.

Context {World Deployer : Type}.
Variable sys : System World Deployer.

(** X4: every key and every value of the lookup that [queryQmake] gives
    holds no colon, no newline and no NUL byte. *)
Theorem queryQmake_value_entries_plain qmakePath key value :
  queryQmake_value sys qmakePath !! key = Some value →
  plain key ∧ plain value ∧ nul_free key ∧ nul_free value.
Proof.
  unfold queryQmake_value.
  destruct (negb (success (check_command sys [qmakePath; "-query"])));
    [by rewrite lookup_empty|].
  set (text := stdoutOutput (check_command sys [qmakePath; "-query"])).
  assert (Htext : has_char NUL text = false)
    by (apply nul_free_has_char, c_text_nul_free).
  unfold parseQmakeOutput. intros Hentry.
  apply foldl_queryQmake_line_lookup in Hentry as [Hentry|(line & Hline & Hparts)];
    [by rewrite lookup_empty in Hentry|].
  pose proof (getline_loop_no_delim newline text EmptyString eq_refl) as Hnl.
  pose proof (getline_loop_char_free NUL newline text EmptyString eq_refl Htext)
    as Hnul.
  rewrite Forall_forall in Hnl, Hnul.
  specialize (Hnl line Hline). specialize (Hnul line Hline).
  pose proof (getline_loop_no_delim ":" line EmptyString eq_refl) as Hcolon.
  pose proof (getline_loop_char_free newline ":" line EmptyString eq_refl Hnl)
    as Hnl'.
  pose proof (getline_loop_char_free NUL ":" line EmptyString eq_refl Hnul)
    as Hnul'.
  unfold stringSplit in Hparts. rewrite Hparts in Hcolon, Hnl', Hnul'.
  apply Forall_cons in Hcolon as [Hc1 Hcolon].
  apply Forall_cons in Hcolon as [Hc2 _].
  apply Forall_cons in Hnl' as [Hn1 Hnl'].
  apply Forall_cons in Hnl' as [Hn2 _].
  apply Forall_cons in Hnul' as [Hz1 Hnul'].
  apply Forall_cons in Hnul' as [Hz2 _].
  unfold plain. rewrite !nul_free_has_char. done.
Qed.

Lemma strip_trailing_newlines_split s :
  ∃ n, s = strip_trailing_newlines s +:+ newlines n.
Proof.
  induction s as [|c s [n IH]]; [by exists 0%nat|]. simpl.
  destruct (strip_trailing_newlines s) as [|k kept] eqn:E.
  - simpl in IH. destruct (Ascii.eqb_spec c newline) as [->|Hne].
    + exists (S n). simpl. by rewrite <- IH.
    + exists n. simpl. by rewrite <- IH.
  - exists n. simpl. simpl in IH. by rewrite <- IH.
Qed.

Lemma strip_trailing_newlines_end s :
  ∀ front, strip_trailing_newlines s ≠ front +:+ String newline EmptyString.
Proof.
  induction s as [|c s IH]; intros front; simpl.
  - by destruct front.
  - destruct (strip_trailing_newlines s) as [|k kept] eqn:E.
    + destruct (Ascii.eqb_spec c newline) as [->|Hne]; [by destruct front|].
      destruct front as [|a [|b front]]; simpl; congruence.
    + destruct front as [|a front]; simpl; [congruence|].
      intros [= _ Hrest]. by apply (IH front).
Qed.

Lemma strip_trailing_newlines_kept s front c back :
  c ≠ newline → s = front +:+ String c back →
  strip_trailing_newlines s ≠ EmptyString.
Proof.
  intros Hc ->. induction front as [|a front IH]; simpl.
  - destruct (strip_trailing_newlines back); [|done].
    by destruct (Ascii.eqb_spec c newline).
  - destruct (strip_trailing_newlines (front +:+ String c back)); done.
Qed.

(** X6: when the [which] process fails, [which] returns the empty path.
    When it succeeds and prints some byte that is not a newline, [which]
    returns what was printed up to the first NUL without the newlines at
    its end: the result is not empty, does not end in a newline and holds
    no NUL. *)
Theorem which_spec (name : string) :
  let proc := sys_popen sys ["which"; name] in
  (proc_retcode proc ≠ 0 → which sys name = EmptyString)
  ∧ (proc_retcode proc = 0 →
     (∃ front c back, c ≠ newline
                      ∧ c_text (proc_stdout proc) = front +:+ String c back) →
     (∃ n, c_text (proc_stdout proc) = which sys name +:+ newlines n)
     ∧ which sys name ≠ EmptyString
     ∧ (∀ front, which sys name ≠ front +:+ String newline EmptyString)
     ∧ nul_free (which sys name)).
Proof.
  cbv zeta. unfold which. split.
  - intros Hcode. by destruct (Z.eqb_spec (proc_retcode (sys_popen sys ["which"; name])) 0).
  - intros -> (front & c & back & Hc & Htext). simpl.
    destruct (strip_trailing_newlines_split
                (c_text (proc_stdout (sys_popen sys ["which"; name]))))
      as [n Hsplit].
    split; [by exists n|]. split; [by eapply strip_trailing_newlines_kept|].
    split; [apply strip_trailing_newlines_end|].
    pose proof (c_text_nul_free (proc_stdout (sys_popen sys ["which"; name])))
      as Hnf.
    rewrite Hsplit in Hnf. by apply nul_free_app in Hnf as [Hnf _].
Qed.

End Lookup.

Lemma which_spec_witness :
  let sys := Sample.sys_widgets in
  let proc := sys_popen sys ["which"; "qmake-qt5"] in
  proc_retcode proc = 0
  ∧ (∃ front c back, c ≠ newline
                     ∧ c_text (proc_stdout proc) = front +:+ String c back)
  ∧ which sys "qmake-qt5" ≠ EmptyString
  ∧ (∀ front, which sys "qmake-qt5" ≠ front +:+ String newline EmptyString)
  ∧ proc_retcode (sys_popen sys ["which"; "qmake"]) ≠ 0
  ∧ which sys "qmake" = EmptyString.
Proof.
  intros sys proc.
  assert (Hcode : proc_retcode proc = 0) by reflexivity.
  assert (Hbyte : ∃ front c back, c ≠ newline
                    ∧ c_text (proc_stdout proc) = front +:+ String c back).
  { exists EmptyString, "/"%char, ("usr/bin/qmake-qt5" +:+ Sample.nl).
    split; [discriminate | reflexivity]. }
  assert (Hfail : proc_retcode (sys_popen sys ["which"; "qmake"]) ≠ 0)
    by discriminate.
  destruct (which_spec sys "qmake-qt5") as [_ Hok].
  destruct (which_spec sys "qmake") as [Hnone _].
  destruct (Hok Hcode Hbyte) as (_ & Hne & Hend & _).
  exact (conj Hcode (conj Hbyte (conj Hne (conj Hend (conj Hfail (Hnone Hfail)))))).
Defined.

Lemma queryQmake_value_entries_plain_witness :
  let sys := Sample.sys_widgets in
  queryQmake_value sys "/usr/bin/qmake-qt5" !! "QT_INSTALL_LIBS" = Some "/opt/qt/lib"
  ∧ plain "QT_INSTALL_LIBS" ∧ plain "/opt/qt/lib".
Proof.
  intros sys.
  assert (H : queryQmake_value sys "/usr/bin/qmake-qt5" !! "QT_INSTALL_LIBS"
              = Some "/opt/qt/lib") by (vm_compute; reflexivity).
  destruct (queryQmake_value_entries_plain sys _ _ _ H) as (Hk & Hv & _).
  exact (conj H (conj Hk Hv)).
Defined.

(** ** pathContainsFile *)

Lemma std_equal_prefix (range1 : list string) :
  ∀ range2, (length range1 ≤ length range2)%nat →
            std_equal range1 range2
            = Some (bool_decide (range1 `prefix_of` range2)).
Proof.
  induction range1 as [|x rest1 IH]; intros range2 Hlen; cbn [std_equal].
  - done.
  - destruct range2 as [|y rest2]; simpl in Hlen; [lia|].
    destruct (bool_decide (x = y)) eqn:Hxy;
      [apply bool_decide_eq_true_1 in Hxy | apply bool_decide_eq_false_1 in Hxy].
    + subst y. rewrite IH by lia. f_equal. apply bool_decide_ext. split.
      * apply prefix_cons.
      * apply prefix_cons_inv_2.
    + f_equal. symmetry. apply bool_decide_eq_false_2.
      intros Hpre. by apply prefix_cons_inv_1 in Hpre.
Qed.

(** X7: for a file path that has a file name, [pathContainsFile] never
    reads past the end of a range and answers true exactly when the
    elements of [dir] (without a final ["."] element) are the first
    elements of the directory of [file]. *)
Theorem pathContainsFile_spec (lib : PathLibrary) (dir file : string) :
  path_has_filename lib file = true →
  let dir' :=
    if bool_decide (path_name lib dir = ".") then path_remove_filename lib dir
    else dir in
  pathContainsFile lib dir file
  = Some (bool_decide
            (path_elements lib dir'
               `prefix_of` path_elements lib (path_remove_filename lib file))).
Proof.
  intros Hname. cbv zeta. unfold pathContainsFile. rewrite Hname.
  cbn [negb]. cbv iota.
  set (d := path_elements lib
              (if bool_decide (path_name lib dir = ".")
               then path_remove_filename lib dir else dir)).
  set (f := path_elements lib (path_remove_filename lib file)).
  destruct (Nat.ltb_spec (length f) (length d)) as [Hlt|Hle].
  - f_equal. symmetry. apply bool_decide_eq_false_2.
    intros Hpre. apply prefix_length in Hpre. lia.
  - by apply std_equal_prefix.
Qed.

Lemma pathContainsFile_spec_witness :
  path_has_filename SamplePaths.library "usr/lib/qt/libQt5Core.so.5" = true
  ∧ pathContainsFile SamplePaths.library "usr/lib" "usr/lib/qt/libQt5Core.so.5"
    = Some true
  ∧ pathContainsFile SamplePaths.library "usr/lib/qt/plugins"
      "usr/lib/qt/libQt5Core.so.5" = Some false
  ∧ pathContainsFile SamplePaths.library "usr/lib/qt/"
      "usr/lib/qt/libQt5Core.so.5" = Some true
  ∧ pathContainsFile SamplePaths.library "usr/lib/qt/plugins/"
      "usr/lib/qt/libQt5Core.so.5" = Some false.
Proof.
  assert (H : path_has_filename SamplePaths.library "usr/lib/qt/libQt5Core.so.5"
              = true) by reflexivity.
  pose proof (pathContainsFile_spec SamplePaths.library "usr/lib"
                "usr/lib/qt/libQt5Core.so.5" H) as H1.
  pose proof (pathContainsFile_spec SamplePaths.library "usr/lib/qt/plugins"
                "usr/lib/qt/libQt5Core.so.5" H) as H2.
  pose proof (pathContainsFile_spec SamplePaths.library "usr/lib/qt/"
                "usr/lib/qt/libQt5Core.so.5" H) as H3.
  pose proof (pathContainsFile_spec SamplePaths.library "usr/lib/qt/plugins/"
                "usr/lib/qt/libQt5Core.so.5" H) as H4.
  cbv zeta in H1, H2, H3, H4.
  refine (conj H (conj (eq_trans H1 _) (conj (eq_trans H2 _)
            (conj (eq_trans H3 _) (eq_trans H4 _)))));
    vm_compute; reflexivity.
Defined.

(** The decomposition of the sample library on the paths of the table in
    the documentation of [boost::filesystem::path], and the directory with
    a trailing separator of which the comment in [pathContainsFile]
    speaks: only its final ["."] is removed. *)
Example sample_paths_decomposition :
  map (path_elements SamplePaths.library)
      ["usr/lib/"; "/usr/lib"; "usr//lib"; "/"; "//net/foo"; "///foo///";
       "./"; "/."; "foo"]
  = [["usr"; "lib"; "."]; ["/"; "usr"; "lib"]; ["usr"; "lib"]; ["/"];
     ["//net"; "/"; "foo"]; ["/"; "foo"; "."]; ["."; "."]; ["/"; "."];
     ["foo"]]
  ∧ path_elements SamplePaths.library EmptyString = []
  ∧ path_name SamplePaths.library "usr/lib/" = "."
  ∧ path_elements SamplePaths.library
      (path_remove_filename SamplePaths.library "usr/lib/") = ["usr"; "lib"]
  ∧ pathContainsFile SamplePaths.library "usr/lib/" "usr/libQt5Core.so.5"
    = Some false.
Proof. vm_compute. repeat split. Qed.

(** ** The names and the modules of a bundle *)

Section Resolution.

Context {World Deployer : Type}.
Variable QtModules : list QtModule.
Variable sys : System World Deployer.

Lemma elem_of_dependency_names dependencies :
  ∀ (libraryNames : gset string) name,
    name ∈ foldl (λ libraryNames dependency,
                    {[ path_filename dependency ]} ∪ libraryNames)
                 libraryNames dependencies
    ↔ name ∈ libraryNames
      ∨ ∃ dependency, dependency ∈ dependencies
                      ∧ name = path_filename dependency.
Proof.
  induction dependencies as [|d rest IH]; intros libraryNames name; simpl.
  - split; [auto | intros [H|(d & Hd & _)]; [done | by apply elem_of_nil in Hd]].
  - rewrite IH, elem_of_union, elem_of_singleton. split.
    + intros [[->|H]|(d' & Hd' & ->)].
      * right. exists d. split; [left | done].
      * by left.
      * right. exists d'. split; [by right | done].
    + intros [H|(d' & Hd' & ->)]; [by left; right|].
      apply elem_of_cons in Hd' as [->|Hd']; [by left; left|].
      right. by exists d'.
Qed.

Lemma elem_of_library_names paths :
  ∀ (libraryNames : gset string) name,
    name ∈ foldl (λ libraryNames path,
                    let libraryNames := {[ path_filename path ]} ∪ libraryNames in
                    match sys_traceDynamicDependencies sys path with
                    | Some dependencies =>
                        foldl (λ libraryNames dependency,
                                 {[ path_filename dependency ]} ∪ libraryNames)
                              libraryNames dependencies
                    | None => libraryNames
                    end)
                 libraryNames paths
    ↔ name ∈ libraryNames
      ∨ ∃ path, path ∈ paths
                ∧ (name = path_filename path
                   ∨ ∃ dependencies,
                       sys_traceDynamicDependencies sys path = Some dependencies
                       ∧ ∃ dependency, dependency ∈ dependencies
                                       ∧ name = path_filename dependency).
Proof.
  induction paths as [|p rest IH]; intros libraryNames name; simpl.
  - split; [auto | intros [H|(p & Hp & _)]; [done | by apply elem_of_nil in Hp]].
  - rewrite IH. clear IH. split.
    + intros [H|(p' & Hp' & H)].
      * destruct (sys_traceDynamicDependencies sys p) as [deps|] eqn:E.
        -- apply elem_of_dependency_names in H as [H|(d & Hd & ->)].
           ++ apply elem_of_union in H as [H|H]; [|by left].
              apply elem_of_singleton in H as ->.
              right. exists p. split; [left | by left].
           ++ right. exists p. split; [left|]. right. exists deps.
              split; [done|]. by exists d.
        -- apply elem_of_union in H as [H|H]; [|by left].
           apply elem_of_singleton in H as ->.
           right. exists p. split; [left | by left].
      * right. exists p'. split; [by right | done].
    + intros [H|(p' & Hp' & H)].
      * left. destruct (sys_traceDynamicDependencies sys p).
        -- apply elem_of_dependency_names. left. apply elem_of_union. by right.
        -- apply elem_of_union. by right.
      * apply elem_of_cons in Hp' as [->|Hp']; [|right; by exists p'].
        left. destruct H as [->|(deps & E & d & Hd & ->)].
        -- destruct (sys_traceDynamicDependencies sys p).
           ++ apply elem_of_dependency_names. left. apply elem_of_union. left.
              by apply elem_of_singleton.
           ++ apply elem_of_union. left. by apply elem_of_singleton.
        -- rewrite E. apply elem_of_dependency_names. right. by exists d.
Qed.

(** X8: a name is among the library names of the bundle exactly when it is
    the file name of a shared library of the bundle or of one of the traced
    dependencies of such a library; a library that does not parse as an ELF
    file still contributes its own file name. *)
Theorem collectLibraryNames_spec (appDir name : string) :
  name ∈ collectLibraryNames sys appDir
  ↔ ∃ path, path ∈ sys_listSharedLibraries sys appDir
            ∧ (name = path_filename path
               ∨ ∃ dependencies,
                   sys_traceDynamicDependencies sys path = Some dependencies
                   ∧ ∃ dependency, dependency ∈ dependencies
                                   ∧ name = path_filename dependency).
Proof.
  unfold collectLibraryNames. rewrite elem_of_library_names.
  split; [intros [H|H]; [by apply not_elem_of_empty in H | done] | auto].
Qed.

Lemma elem_of_set_begin_to_end (names : gset string) name :
  name ∈ set_begin_to_end names ↔ name ∈ names.
Proof.
  unfold set_begin_to_end. rewrite merge_sort_Permutation. apply elem_of_elements.
Qed.

(** The iteration is in ascending order and visits every name once. *)
Lemma set_begin_to_end_sorted (names : gset string) :
  Sorted string_le (set_begin_to_end names).
Proof. apply Sorted_merge_sort. intros a b. apply String.leb_total. Qed.

Lemma set_begin_to_end_NoDup (names : gset string) :
  NoDup (set_begin_to_end names).
Proof.
  unfold set_begin_to_end. rewrite merge_sort_Permutation. apply NoDup_elements.
Qed.

Lemma filter_agree {A} (P Q : A → Prop) `{∀ x, Decision (P x)}
      `{∀ x, Decision (Q x)} (l : list A) :
  Forall (λ x, P x ↔ Q x) l → filter P l = filter Q l.
Proof.
  induction 1 as [|x l Hx _ IH]; [done|].
  rewrite !filter_cons, IH.
  destruct (decide (P x)) as [HP|HP], (decide (Q x)) as [HQ|HQ]; tauto.
Qed.

(** When the status of every name is given, [find_if] and [copy_if]
    return. *)
Lemma matchesAny_is_Some names module :
  Forall (λ token, is_Some (sys_is_regular_file sys token)) names →
  is_Some (matchesAny sys names module).
Proof.
  induction 1 as [|token names [is_file Hstatus] _ IH]; cbn [matchesAny];
    [by eexists|].
  unfold matchesQtModule, filename_if_regular_file. rewrite Hstatus. simpl.
  destruct (matches_name _ module); [by eexists | done].
Qed.

Lemma copy_if_is_Some catalog names :
  Forall (λ token, is_Some (sys_is_regular_file sys token)) names →
  is_Some (copy_if sys catalog names).
Proof.
  intros Hnames. induction catalog as [|module rest [copied IH]];
    cbn [copy_if]; [by eexists|].
  destruct (matchesAny_is_Some names module Hnames) as [matched ->].
  rewrite IH. by eexists.
Qed.

(** X9: once the lists of the resolution are computed, a module is in the
    list handed to the deployment exactly when it is in the catalog and is
    matched by a library name of the bundle, by a [-p] token or by a token
    of the environment; nothing outside the catalog is ever deployed. *)
Theorem qtModulesToDeploy_spec (cli : CommandLine) (appDir : string)
        (module : QtModule) (found extra : list QtModule) (env : list string) :
  foundQtModules QtModules sys (collectLibraryNames sys appDir) = Some found →
  extraPluginsFromEnv sys = Some env →
  extraQtModules QtModules sys cli = Some extra →
  module ∈ qtModulesToDeploy found extra
  ↔ module ∈ QtModules
    ∧ ((∃ name, name ∈ collectLibraryNames sys appDir
                ∧ matchesQtModule sys name module = Some true)
       ∨ (∃ token, token ∈ extraPlugins cli
                   ∧ matchesQtModule sys token module = Some true)
       ∨ (∃ token, token ∈ env
                   ∧ matchesQtModule sys token module = Some true)).
Proof.
  intros Hfound Henv Hextra.
  apply extraQtModules_Some in Hextra
    as (env' & from_cli & from_env & Henv' & Hcli & Hfrom_env & ->).
  rewrite Henv in Henv'. injection Henv' as <-.
  unfold qtModulesToDeploy, foundQtModules in *.
  rewrite !elem_of_app, (elem_of_copy_if_matches _ _ _ _ _ Hfound),
    (elem_of_copy_if_matches _ _ _ _ _ Hcli),
    (elem_of_copy_if_matches _ _ _ _ _ Hfrom_env).
  split.
  - intros [[Hin (name & Hname & Hm)]|[[Hin H]|[Hin H]]]; split; auto.
    left. exists name. by rewrite <- elem_of_set_begin_to_end.
  - intros [Hin [(name & Hname & Hm)|[H|H]]]; auto.
    left. split; [done|]. exists name. by rewrite elem_of_set_begin_to_end.
Qed.

(** X10: the matches of a token list depend only on which tokens it
    holds: two lists with the same tokens, in any order and with any
    repetitions, select the same modules in the same order whenever both
    selections return, and both do return when the file system gives the
    status of every token. *)
Theorem copy_if_matches_token_set (names1 names2 : list string) :
  (∀ token, token ∈ names1 ↔ token ∈ names2) →
  (∀ copied1 copied2,
     copy_if_matches QtModules sys names1 = Some copied1 →
     copy_if_matches QtModules sys names2 = Some copied2 →
     copied1 = copied2)
  ∧ (Forall (λ token, is_Some (sys_is_regular_file sys token)) names1 →
     ∃ copied,
       copy_if_matches QtModules sys names1 = Some copied
       ∧ copy_if_matches QtModules sys names2 = Some copied).
Proof.
  intros Hsame.
  assert (Hequal : ∀ copied1 copied2,
            copy_if_matches QtModules sys names1 = Some copied1 →
            copy_if_matches QtModules sys names2 = Some copied2 →
            copied1 = copied2).
  { intros copied1 copied2 H1 H2.
    apply copy_if_Some in H1 as [-> Hall1]. apply copy_if_Some in H2 as [-> Hall2].
    apply filter_agree. rewrite Forall_forall in Hall1, Hall2.
    apply Forall_forall. intros module Hin.
    destruct (Hall1 module Hin) as [matched1 Hm1].
    destruct (Hall2 module Hin) as [matched2 Hm2].
    rewrite Hm1, Hm2.
    pose proof (matchesAny_returns sys _ _ _ Hm1) as Hr1.
    pose proof (matchesAny_returns sys _ _ _ Hm2) as Hr2.
    assert (Hboth : matched1 = true ↔ matched2 = true).
    { rewrite Hr1, Hr2.
      split; intros (token & Hin' & Hm); exists token; by rewrite ?Hsame in *. }
    split; intros [= ->]; f_equal; by apply Hboth. }
  split; [done|].
  intros Hnames1.
  assert (Hnames2 : Forall (λ token, is_Some (sys_is_regular_file sys token))
                      names2).
  { rewrite Forall_forall in Hnames1. apply Forall_forall. intros token Hin.
    apply Hnames1. by apply Hsame. }
  destruct (copy_if_is_Some QtModules names1 Hnames1) as [copied1 H1].
  destruct (copy_if_is_Some QtModules names2 Hnames2) as [copied2 H2].
  exists copied1. split; [done|].
  unfold copy_if_matches. rewrite H2. f_equal. symmetry. by apply Hequal.
Qed.

End Resolution.

Lemma qtModulesToDeploy_spec_witness :
  let sys := Sample.sys_widgets_env in
  let cli := Sample.command_line ["sqlite"] in
  ∃ env,
    foundQtModules Sample.catalog sys (collectLibraryNames sys "AppDir")
    = Some [Sample.widgets]
    ∧ extraPluginsFromEnv sys = Some env
    ∧ extraQtModules Sample.catalog sys cli = Some [Sample.sqlite; Sample.widgets]
    ∧ (Sample.sqlite ∈ qtModulesToDeploy [Sample.widgets]
                         [Sample.sqlite; Sample.widgets]
       ↔ Sample.sqlite ∈ Sample.catalog
         ∧ ((∃ name, name ∈ collectLibraryNames sys "AppDir"
                     ∧ matchesQtModule sys name Sample.sqlite = Some true)
            ∨ (∃ token, token ∈ extraPlugins cli
                        ∧ matchesQtModule sys token Sample.sqlite = Some true)
            ∨ (∃ token, token ∈ env
                        ∧ matchesQtModule sys token Sample.sqlite = Some true))).
Proof.
  intros sys cli.
  assert (Hfound : foundQtModules Sample.catalog sys
                     (collectLibraryNames sys "AppDir") = Some [Sample.widgets])
    by (vm_compute; reflexivity).
  assert (Henv : ∃ env, extraPluginsFromEnv sys = Some env)
    by (eexists; vm_compute; reflexivity).
  destruct Henv as [env Henv].
  assert (Hextra : extraQtModules Sample.catalog sys cli
                   = Some [Sample.sqlite; Sample.widgets])
    by (vm_compute; reflexivity).
  exact (ex_intro _ env (conj Hfound (conj Henv (conj Hextra
           (qtModulesToDeploy_spec Sample.catalog sys cli "AppDir" Sample.sqlite
              _ _ env Hfound Henv Hextra))))).
Defined.

Lemma copy_if_matches_token_set_witness :
  let sys := Sample.sys_empty_bundle in
  (∀ token, token ∈ ["widgets"; "sqlite"; "widgets"] ↔ token ∈ ["sqlite"; "widgets"])
  ∧ Forall (λ token, is_Some (sys_is_regular_file sys token))
      ["widgets"; "sqlite"; "widgets"]
  ∧ copy_if_matches Sample.catalog sys ["widgets"; "sqlite"; "widgets"]
    = Some [Sample.sqlite; Sample.widgets]
  ∧ copy_if_matches Sample.catalog sys ["sqlite"; "widgets"]
    = Some [Sample.sqlite; Sample.widgets].
Proof.
  intros sys.
  assert (H : ∀ token, token ∈ ["widgets"; "sqlite"; "widgets"]
                       ↔ token ∈ ["sqlite"; "widgets"]).
  { intros token. rewrite !elem_of_cons, !elem_of_nil. tauto. }
  assert (Hstatus : Forall (λ token, is_Some (sys_is_regular_file sys token))
                      ["widgets"; "sqlite"; "widgets"])
    by (repeat constructor; by eexists).
  destruct (copy_if_matches_token_set Sample.catalog sys _ _ H) as [_ Hreturn].
  destruct (Hreturn Hstatus) as (copied & H1 & H2).
  assert (Hcopied : copied = [Sample.sqlite; Sample.widgets]).
  { revert H1. vm_compute. by intros [= <-]. }
  subst copied.
  exact (conj H (conj Hstatus (conj H1 H2))).
Defined.

(** ** The tokens of the environment *)

Lemma strncmp_c_text_l n :
  ∀ s p, strncmp s p n = strncmp (c_text s) p n.
Proof.
  induction n as [|n IH]; intros s p; [done|].
  destruct s as [|c s]; [done|]. cbn [c_text].
  destruct (Ascii.eqb_spec c NUL) as [->|Hc].
  - cbn [strncmp deref next].
    destruct (negb (Ascii.eqb NUL (deref p))); [done|].
    by rewrite Ascii.eqb_refl.
  - cbn [strncmp deref next]. by rewrite IH.
Qed.

Lemma strcmp_c_text_l s :
  ∀ t, strcmp s t = strcmp (c_text s) t.
Proof.
  induction s as [|c s IH]; intros t; [done|]. cbn [c_text].
  destruct (Ascii.eqb_spec c NUL) as [->|Hc].
  - cbn [strcmp].
    destruct (Ascii.eqb_spec NUL (deref t)) as [Heq|Hne]; cbn [negb]; cbv iota.
    + rewrite Ascii.eqb_refl, <- Heq. done.
    + done.
  - cbn [strcmp]. by rewrite IH.
Qed.

Lemma c_text_nul_free_id s : nul_free s → c_text s = s.
Proof.
  induction s as [|c s IH]; [done|]. intros [Hc Hs]. simpl.
  destruct (Ascii.eqb_spec c NUL); [done | by rewrite IH].
Qed.

Lemma c_text_app_nul value behind :
  nul_free value → c_text (value +:+ String NUL behind) = value.
Proof.
  induction value as [|c value IH]; [done|]. intros [Hc Hvalue].
  rewrite str_app_cons. cbn [c_text].
  destruct (Ascii.eqb_spec c NUL); [done | by rewrite IH].
Qed.

Lemma string_of_buffer_app front c behind :
  ∀ n, (String.length front < n)%nat →
       string_of_buffer (front +:+ String c behind) n
       = (λ tail, front +:+ String c tail)
         <$> string_of_buffer behind (n - String.length front - 1).
Proof.
  induction front as [|a front IH]; intros n Hn; simpl in Hn.
  - destruct n as [|n]; [lia|]. simpl. by rewrite Nat.sub_0_r.
  - destruct n as [|n]; [lia|]. rewrite !str_app_cons. cbn [string_of_buffer].
    rewrite IH by lia. simpl.
    by destruct (string_of_buffer behind (n - String.length front - 1)).
Qed.

(** The constructor returns exactly when [n] bytes are readable, and then
    with the first [n] of them. *)
Lemma string_of_buffer_Some p :
  ∀ n buffer,
    string_of_buffer p n = Some buffer →
    String.length buffer = n ∧ ∃ rest, p = buffer +:+ rest.
Proof.
  induction p as [|c p IH]; intros [|n] buffer; cbn [string_of_buffer].
  - intros [= <-]. split; [done | by exists EmptyString].
  - done.
  - intros [= <-]. split; [done | by eexists].
  - destruct (string_of_buffer p n) as [tail|] eqn:Htail; [|done].
    simpl. intros [= <-]. destruct (IH n tail Htail) as [Hlen [rest ->]].
    split; [simpl; by rewrite Hlen | by exists rest].
Qed.

Lemma string_of_buffer_None p :
  ∀ n, string_of_buffer p n = None ↔ (String.length p < n)%nat.
Proof.
  induction p as [|c p IH]; intros [|n]; cbn [string_of_buffer]; simpl.
  - split; [done | lia].
  - split; [lia | done].
  - split; [done | lia].
  - specialize (IH n). destruct (string_of_buffer p n); simpl.
    + split; [done|]. intros Hlt. assert (String.length p < n)%nat as H by lia.
      by apply IH in H.
    + split; [|done]. intros _. assert (String.length p < n)%nat
        by (by apply IH). lia.
Qed.

Lemma getline_loop_skip delim part :
  has_char delim part = false →
  ∀ cur stream,
    getline_loop cur (part +:+ stream) delim
    = getline_loop (cur +:+ part) stream delim.
Proof.
  induction part as [|c part IH]; intros Hpart cur stream.
  - by rewrite str_app_nil_r.
  - simpl in Hpart. apply orb_false_iff in Hpart as [Hc Hpart].
    rewrite str_app_cons. cbn [getline_loop].
    rewrite Hc, (IH Hpart), str_app_assoc. done.
Qed.

Lemma getline_loop_first delim stream :
  ∀ cur, cur ≠ EmptyString →
         ∃ more rest, getline_loop cur stream delim = (cur +:+ more) :: rest.
Proof.
  induction stream as [|c stream IH]; intros cur Hcur; cbn [getline_loop].
  - exists EmptyString, []. rewrite str_app_nil_r. by destruct cur.
  - destruct (Ascii.eqb c delim).
    + eexists EmptyString, _. by rewrite str_app_nil_r.
    + destruct (IH (cur +:+ String c EmptyString)) as (more & rest & ->).
      { intros H. apply str_app_empty in H as [_ H]. discriminate H. }
      exists (String c more), rest. by rewrite str_app_assoc.
Qed.

Lemma getline_loop_lengths delim stream :
  ∀ cur,
    (sum_list (String.length <$> getline_loop cur stream delim)
     + length (getline_loop cur stream delim)
     ≤ String.length cur + String.length stream + 1)%nat.
Proof.
  induction stream as [|c stream IH]; intros cur; cbn [getline_loop].
  - destruct cur; simpl; lia.
  - destruct (Ascii.eqb c delim).
    + specialize (IH EmptyString). rewrite fmap_cons.
      set (lengths := String.length <$> getline_loop EmptyString stream delim) in *.
      clearbody lengths. simpl in *. lia.
    + specialize (IH (cur +:+ String c EmptyString)).
      rewrite str_length_app in IH. simpl in IH. simpl String.length. lia.
Qed.

Section EnvironmentTokens.

Context {World Deployer : Type}.
Variable QtModules : list QtModule.
Variable sys : System World Deployer.

Lemma matchesQtModule_c_text_aux (L : string) (M : QtModule) :
  sys_is_regular_file sys L = Some false →
  sys_is_regular_file sys (c_text L) = Some false →
  matchesQtModule sys L M = matchesQtModule sys (c_text L) M.
Proof.
  intros HL Htext. unfold matchesQtModule, filename_if_regular_file.
  rewrite HL, Htext. simpl. unfold matches_name, c_str.
  by rewrite <- strncmp_c_text_l, <- strcmp_c_text_l.
Qed.

(** X11: the matcher sees a candidate only up to its first NUL: a
    candidate and its text before the first NUL, when neither names a
    regular file, match the same modules, and the bytes behind the NUL
    never change the answer. *)
Theorem matchesQtModule_c_text (L behind : string) (M : QtModule) :
  sys_is_regular_file sys L = Some false →
  sys_is_regular_file sys (c_text L) = Some false →
  matchesQtModule sys L M = matchesQtModule sys (c_text L) M
  ∧ (nul_free L →
     sys_is_regular_file sys (L +:+ String NUL behind) = Some false →
     matchesQtModule sys (L +:+ String NUL behind) M = matchesQtModule sys L M).
Proof.
  intros HL Htext. split; [by apply matchesQtModule_c_text_aux|].
  intros Hnf Hlong.
  rewrite (matchesQtModule_c_text_aux (L +:+ String NUL behind));
    rewrite ?c_text_app_nul by done; done.
Qed.

Lemma extraPluginsFromEnv_None :
  extraPluginsFromEnv sys = None
  ↔ ∃ data, sys_getenv sys "EXTRA_QT_PLUGINS" = Some data
            ∧ (String.length data < 59)%nat.
Proof.
  unfold extraPluginsFromEnv. change (nat_of_ascii ";") with 59%nat.
  destruct (sys_getenv sys "EXTRA_QT_PLUGINS") as [data|].
  - pose proof (string_of_buffer_None data 59) as Hnone.
    destruct (string_of_buffer data 59) as [buffer|]; simpl.
    + split; [done|]. intros (data' & [= <-] & Hlt).
      by apply Hnone in Hlt.
    + split; [|done]. intros _. exists data. split; [done|]. by apply Hnone.
  - split; [done|]. by intros (data & Hdata & _).
Qed.

(** X12: whatever the environment holds, the tokens that a run takes from
    [EXTRA_QT_PLUGINS] hold no blank and at most 59 bytes in total; and
    the run gets no tokens, because the read leaves the readable memory,
    exactly when the variable is set and fewer than 59 bytes are readable
    behind its pointer. *)
Theorem extraPluginsFromEnv_bounds :
  (∀ tokens,
     extraPluginsFromEnv sys = Some tokens →
     Forall (λ token, has_char " " token = false) tokens
     ∧ (sum_list (String.length <$> tokens) ≤ 59)%nat)
  ∧ (extraPluginsFromEnv sys = None
     ↔ ∃ data, sys_getenv sys "EXTRA_QT_PLUGINS" = Some data
               ∧ (String.length data < 59)%nat).
Proof.
  split; [|apply extraPluginsFromEnv_None].
  intros tokens. unfold extraPluginsFromEnv.
  destruct (sys_getenv sys "EXTRA_QT_PLUGINS") as [data|];
    [|intros [= <-]; split; [constructor | simpl; lia]].
  change (nat_of_ascii ";") with 59%nat.
  destruct (string_of_buffer data 59) as [buffer|] eqn:Hbuffer; [|done].
  simpl. intros [= <-].
  unfold split, split_default_delim. split.
  - by apply getline_loop_no_delim.
  - pose proof (getline_loop_lengths " " buffer EmptyString) as Hsum.
    destruct (string_of_buffer_Some _ _ _ Hbuffer) as [Hlen _].
    destruct (getline_loop EmptyString buffer " ");
      simpl in *; lia.
Qed.

(** X13: a single name in [EXTRA_QT_PLUGINS] is honoured when 59 bytes
    are readable behind the pointer: when the value holds no blank and no
    NUL and is shorter than 59 bytes, the first token is the value followed
    by its terminator and further bytes, its text before the first NUL is
    the value, and every catalog module that the value matches is in the
    extra list of a run that computes it (the token and the value naming
    no regular file).  With fewer than 59 readable bytes there are no
    tokens, and a run that gets as far is killed by the read. *)
Theorem extraPluginsFromEnv_single_name (cli : CommandLine)
        (value behind : string) :
  nul_free value → has_char " " value = false →
  (String.length value < 59)%nat →
  sys_getenv sys "EXTRA_QT_PLUGINS" = Some (value +:+ String NUL behind) →
  ((59 ≤ String.length (value +:+ String NUL behind))%nat →
   ∃ token rest,
     extraPluginsFromEnv sys = Some (token :: rest)
     ∧ c_text token = value
     ∧ (sys_is_regular_file sys token = Some false →
        sys_is_regular_file sys value = Some false →
        ∀ module extra,
          module ∈ QtModules →
          matchesQtModule sys value module = Some true →
          extraQtModules QtModules sys cli = Some extra →
          module ∈ extra))
  ∧ ((String.length (value +:+ String NUL behind) < 59)%nat →
     extraPluginsFromEnv sys = None
     ∧ ∀ appDir w found,
         reaches_resolution sys cli appDir →
         foundQtModules QtModules sys (collectLibraryNames sys appDir)
         = Some found →
         run_main QtModules sys cli w
         = (Killed memory_fault, copyright_events sys)).
Proof.
  intros Hnf Hblank Hlen Henv. split.
  - intros Hreadable. unfold extraPluginsFromEnv. rewrite Henv.
    change (nat_of_ascii ";") with 59%nat.
    rewrite string_of_buffer_app by done.
    destruct (string_of_buffer behind (59 - String.length value - 1))
      as [tail|] eqn:Htail.
    2:{ apply string_of_buffer_None in Htail.
        rewrite str_length_app in Hreadable. simpl in Hreadable. lia. }
    cbn [fmap option_fmap option_map mbind option_bind].
    unfold split, split_default_delim.
    rewrite (getline_loop_skip " " value Hblank). cbn [getline_loop].
    change (Ascii.eqb NUL " ") with false. cbv iota.
    destruct (getline_loop_first " " tail
                ((EmptyString +:+ value) +:+ String NUL EmptyString))
      as (more & rest & Htokens).
    { intros H. apply str_app_empty in H as [_ H]. discriminate H. }
    change (EmptyString +:+ value) with value in *.
    rewrite Htokens. eexists _, rest. split; [done|].
    assert (Htext : c_text ((value +:+ String NUL EmptyString) +:+ more)
                    = value).
    { rewrite str_app_assoc, str_app_char. by apply c_text_app_nul. }
    split; [done|].
    intros Htoken Hvalue module extra Hin Hm Hextra.
    apply extraQtModules_Some in Hextra
      as (env & from_cli & from_env & Henv' & _ & Hfrom_env & ->).
    rewrite elem_of_app. right.
    apply (elem_of_copy_if_matches _ _ _ _ _ Hfrom_env). split; [done|].
    unfold extraPluginsFromEnv in Henv'. rewrite Henv in Henv'.
    change (nat_of_ascii ";") with 59%nat in Henv'.
    rewrite string_of_buffer_app, Htail in Henv' by done.
    cbn [fmap option_fmap option_map mbind option_bind] in Henv'.
    unfold split, split_default_delim in Henv'.
    rewrite (getline_loop_skip " " value Hblank) in Henv'.
    cbn [getline_loop] in Henv'.
    change (Ascii.eqb NUL " ") with false in Henv'. cbv iota in Henv'.
    change (EmptyString +:+ value) with value in Henv'.
    rewrite Htokens in Henv'. injection Henv' as <-.
    eexists. split; [left|].
    rewrite matchesQtModule_c_text_aux; [|done|by rewrite Htext].
    by rewrite Htext.
  - intros Hshort.
    assert (Hnone : extraPluginsFromEnv sys = None).
    { apply extraPluginsFromEnv_None. by eexists. }
    split; [done|]. intros appDir w found Hreach Hfound. unfold run_main.
    by rewrite (main_from_resolution QtModules sys cli appDir _ Hreach),
      Hfound, Hnone.
Qed.

End EnvironmentTokens.

Lemma matchesQtModule_c_text_witness :
  let sys := Sample.sys_widgets_env in
  let L := "widgets" in
  let behind := "HOME=/root" in
  sys_is_regular_file sys L = Some false
  ∧ sys_is_regular_file sys (c_text L) = Some false
  ∧ nul_free L
  ∧ sys_is_regular_file sys (L +:+ String NUL behind) = Some false
  ∧ matchesQtModule sys (L +:+ String NUL behind) Sample.widgets
    = matchesQtModule sys L Sample.widgets.
Proof.
  intros sys L behind.
  assert (HL : sys_is_regular_file sys L = Some false) by reflexivity.
  assert (Htext : sys_is_regular_file sys (c_text L) = Some false) by reflexivity.
  assert (Hnf : nul_free L) by (apply nul_freeb_spec; reflexivity).
  assert (Hlong : sys_is_regular_file sys (L +:+ String NUL behind) = Some false)
    by reflexivity.
  destruct (matchesQtModule_c_text sys L behind Sample.widgets HL Htext)
    as [_ Hbehind].
  exact (conj HL (conj Htext (conj Hnf (conj Hlong (Hbehind Hnf Hlong))))).
Defined.

Lemma extraPluginsFromEnv_bounds_witness :
  let sys := Sample.sys_env_list in
  ∃ tokens,
    extraPluginsFromEnv sys = Some tokens
    ∧ Forall (λ token, has_char " " token = false) tokens
    ∧ (sum_list (String.length <$> tokens) ≤ 59)%nat.
Proof.
  intros sys.
  assert (Htokens : ∃ tokens, extraPluginsFromEnv sys = Some tokens)
    by (eexists; vm_compute; reflexivity).
  destruct Htokens as [tokens Htokens].
  destruct (extraPluginsFromEnv_bounds sys) as [Hbounds _].
  exact (ex_intro _ tokens (conj Htokens (Hbounds tokens Htokens))).
Defined.

Lemma extraPluginsFromEnv_single_name_witness :
  let sys := Sample.sys_widgets_env in
  let cli := Sample.command_line [] in
  let value := "widgets" in
  let behind :=
    "HOME=/root" +:+ Sample.nul +:+ "PATH=/usr/local/bin:/usr/bin:/bin"
    +:+ Sample.nul +:+ "LANG=C.UTF-8" +:+ Sample.nul +:+ "SHELL=/bin/sh"
    +:+ Sample.nul in
  nul_free value ∧ has_char " " value = false
  ∧ (String.length value < 59)%nat
  ∧ sys_getenv sys "EXTRA_QT_PLUGINS" = Some (value +:+ String NUL behind)
  ∧ (59 ≤ String.length (value +:+ String NUL behind))%nat
  ∧ extraQtModules Sample.catalog sys cli = Some [Sample.widgets]
  ∧ ∃ token rest,
      extraPluginsFromEnv sys = Some (token :: rest)
      ∧ c_text token = value
      ∧ Sample.widgets ∈ [Sample.widgets].
Proof.
  intros sys cli value behind.
  assert (Hnf : nul_free value) by (apply nul_freeb_spec; reflexivity).
  assert (Hblank : has_char " " value = false) by reflexivity.
  assert (Hlen : (String.length value < 59)%nat) by (simpl; lia).
  assert (Henv : sys_getenv sys "EXTRA_QT_PLUGINS"
                 = Some (value +:+ String NUL behind)) by reflexivity.
  assert (Hreadable : (59 ≤ String.length (value +:+ String NUL behind))%nat)
    by (vm_compute; lia).
  assert (Hextra : extraQtModules Sample.catalog sys cli = Some [Sample.widgets])
    by (vm_compute; reflexivity).
  destruct (extraPluginsFromEnv_single_name Sample.catalog sys cli value behind
              Hnf Hblank Hlen Henv) as [Hlong _].
  destruct (Hlong Hreadable) as (token & rest & Htokens & Htext & Hin).
  assert (Hmember : Sample.widgets ∈ Sample.catalog)
    by (apply (bool_decide_unpack _); vm_compute; exact I).
  exact (conj Hnf (conj Hblank (conj Hlen (conj Henv (conj Hreadable
           (conj Hextra
              (ex_intro _ token (ex_intro _ rest
                 (conj Htokens (conj Htext
                    (Hin eq_refl eq_refl Sample.widgets _ Hmember eq_refl
                       Hextra))))))))))).
Defined.

(** ** Whole runs *)

Section Runs.

Context {World Deployer : Type}.
Variable QtModules : list QtModule.
Variable sys : System World Deployer.

Implicit Types (st : @State World) (events : list Event) (cli : CommandLine).

Lemma deployer_events_progress module_name (deployers : list Deployer) :
  ∀ index, Forall deploy_progress (deployer_events module_name index deployers).
Proof.
  induction deployers as [|d rest IH]; intros index; simpl; [constructor|].
  constructor; [done | apply IH].
Qed.

Lemma module_events_progress (deployers_of : string → list Deployer) modules :
  Forall deploy_progress (module_events deployers_of modules).
Proof.
  induction modules as [|m rest IH]; simpl; [constructor|].
  constructor; [done|]. apply Forall_app. split; [|done].
  apply deployer_events_progress.
Qed.

(** The inner loop, event by event. *)
Lemma deployAll_events module_name deployers :
  ∀ index st,
    let r := deployAll sys module_name index deployers st in
    (r.1 = Continue tt
     ∧ trace r.2 = trace st ++ deployer_events module_name index deployers)
    ∨ (r.1 = Exit 1
       ∧ ∃ k, (k < length deployers)%nat
              ∧ trace r.2
                = trace st
                  ++ deployer_events module_name index (take k deployers)
                  ++ [EvDeploy module_name (index + k) false]).
Proof.
  induction deployers as [|deployer rest IH]; intros index st; cbv zeta.
  - left. simpl. by rewrite app_nil_r.
  - cbn [deployAll]. unfold bind, act. cbn [fst snd].
    destruct (sys_deploy sys deployer (world st)) as [[|] w']; cbn [fst snd negb].
    + destruct (IH (S index)
                  {| world := w';
                     trace := trace st ++ [EvDeploy module_name index true] |})
        as [[Hres Htrace]|(Hres & k & Hk & Htrace)];
        cbn [trace] in Htrace.
      * left. split; [done|]. rewrite Htrace, <- app_assoc. done.
      * right. split; [done|]. exists (S k). split; [simpl; lia|].
        rewrite Htrace, <- app_assoc. simpl.
        by replace (index + S k)%nat with (S index + k)%nat by lia.
    + right. split; [done|]. exists 0%nat. split; [simpl; lia|].
      simpl. by rewrite Nat.add_0_r.
Qed.

(** The loop over the modules, event by event. *)
Lemma deployModules_trace factory modules st :
  let r := deployModules sys factory modules st in
  let deployers_of := sys_getDeployers sys factory in
  (r.1 = Continue tt
   ∧ trace r.2 = trace st ++ module_events deployers_of modules)
  ∨ (r.1 = Exit 1
     ∧ ∃ pre module post k,
         modules = pre ++ module :: post
         ∧ (k < length (deployers_of (name module)))%nat
         ∧ trace r.2
           = trace st ++ module_events deployers_of pre
             ++ EvModule (name module)
             :: deployer_events (name module) 0
                  (take k (deployers_of (name module)))
             ++ [EvDeploy (name module) k false]).
Proof.
  cbv zeta. revert st.
  induction modules as [|module rest IH]; intros st.
  - left. simpl. by rewrite app_nil_r.
  - rewrite deployModules_cons.
    destruct (deployAll_events (name module)
                (sys_getDeployers sys factory (name module)) 0%nat
                (logged st [EvModule (name module)]))
      as [[Hres Htrace]|(Hres & k & Hk & Htrace)];
      destruct (deployAll sys (name module) 0 _ _) as [r1 st1];
      cbn [fst snd] in Hres, Htrace; subst r1; cbn [trace logged] in Htrace.
    + destruct (IH st1) as [[Hres' Htrace']|(Hres' & pre & m & post & k & -> & Hk & Htrace')].
      * left. split; [done|]. rewrite Htrace', Htrace. simpl.
        by rewrite <- !app_assoc.
      * right. split; [done|]. exists (module :: pre), m, post, k.
        split; [done|]. split; [done|]. rewrite Htrace', Htrace. simpl.
        by rewrite <- !app_assoc.
    + right. split; [done|]. exists [], module, rest, k. cbn [fst snd].
      split; [done|]. split; [done|]. rewrite Htrace. simpl.
      by rewrite <- !app_assoc.
Qed.

(** X14: the loop over the modules, event by event.  When it completes,
    every deployer of every module has run exactly once, module by module
    in list order and deployer by deployer in the order of the factory.
    When it stops, it has run all deployers of the modules before the
    failing one and, of that module, exactly the deployers before the one
    that failed, and nothing after it. *)
Theorem deployModules_events factory modules st :
  let r := deployModules sys factory modules st in
  let deployers_of := sys_getDeployers sys factory in
  (r.1 = Continue tt
   ∧ trace r.2 = trace st ++ module_events deployers_of modules)
  ∨ (r.1 = Exit 1
     ∧ ∃ pre module post k,
         modules = pre ++ module :: post
         ∧ (k < length (deployers_of (name module)))%nat
         ∧ trace r.2
           = trace st ++ module_events deployers_of pre
             ++ EvModule (name module)
             :: deployer_events (name module) 0
                  (take k (deployers_of (name module)))
             ++ [EvDeploy (name module) k false]).
Proof. apply deployModules_trace. Qed.

(** The closing stages, case by case. *)
Lemma deployment_closing_cases factory modules st :
  match deployModules sys factory modules st with
  | (Exit code, st1) => deployment sys factory modules st = (Exit code, st1)
  | (Abort fault, st1) => deployment sys factory modules st = (Abort fault, st1)
  | (Continue _, st1) =>
      ∃ r w' events1,
        deployment sys factory modules st
        = (r, {| world := w'; trace := trace st1 ++ events1 |})
        ∧ ((r = Continue 0 ∧ events1 = closing_events)
           ∨ (r = Exit 1
              ∧ events1 ∈
                  [[EvDeployTranslations false;
                    EvLog LD_ERROR ["Failed to deploy translations"]];
                   [EvDeployTranslations true; EvDeferredOperations false;
                    EvLog LD_ERROR ["Failed to execute deferred operations"]];
                   [EvDeployTranslations true; EvDeferredOperations true;
                    EvQtConf false;
                    EvLog LD_ERROR ["Failed to create qt.conf in AppDir"]];
                   [EvDeployTranslations true; EvDeferredOperations true;
                    EvQtConf true; EvAppRunHook false;
                    EvLog LD_ERROR ["Failed to create AppRun hook in AppDir"]]]))
  end.
Proof.
  destruct (deployModules sys factory modules st) as [[[]|code|fault] st1] eqn:E;
    unfold deployment, bind; rewrite E; [|done|done].
  unfold act, when, emit, exit, ret. simpl.
  destruct (sys_deployTranslations sys _ _ _) as [[|] w1]; simpl.
  2:{ eexists (Exit 1), w1, _. split; [by rewrite <- ?app_assoc|].
      right. split; [done|]. left. }
  destruct (sys_executeDeferredOperations sys _) as [[|] w2]; simpl.
  2:{ eexists (Exit 1), w2, _. split; [by rewrite <- ?app_assoc|].
      right. split; [done|]. right. left. }
  destruct (sys_createQtConf sys _) as [[|] w3]; simpl.
  2:{ eexists (Exit 1), w3, _. split; [by rewrite <- ?app_assoc|].
      right. split; [done|]. do 2 right. left. }
  destruct (sys_createAppRunHook sys _) as [[|] w4]; simpl.
  2:{ eexists (Exit 1), w4, _. split; [by rewrite <- ?app_assoc|].
      right. split; [done|]. do 3 right. left. }
  exists (Continue 0), w4, closing_events.
  split; [by rewrite <- ?app_assoc|]. by left.
Qed.

Lemma deployer_events_headers module_name (deployers : list Deployer) :
  ∀ index, module_headers (deployer_events module_name index deployers) = [].
Proof. induction deployers as [|d rest IH]; intros index; simpl; [done | apply IH]. Qed.

Lemma module_events_headers (deployers_of : string → list Deployer) modules :
  module_headers (module_events deployers_of modules) = map name modules.
Proof.
  induction modules as [|m rest IH]; simpl; [done|].
  by rewrite module_headers_app, deployer_events_headers, IH.
Qed.

Lemma filter_is_deferred_progress events :
  Forall deploy_progress events → filter is_deferred events = [].
Proof.
  induction 1 as [|e events He _ IH]; [done|].
  rewrite filter_cons, IH. by destruct e as [| | | | | |? ? []| | | |].
Qed.

Lemma filter_is_deferred_no_deployment events :
  no_deployment events → filter is_deferred events = [].
Proof.
  induction 1 as [|e events He _ IH]; [done|].
  rewrite filter_cons, IH. by destruct e.
Qed.

Lemma progress_not_hook events :
  Forall deploy_progress events → EvAppRunHook true ∉ events.
Proof.
  intros Hall Hin. rewrite Forall_forall in Hall. by apply Hall in Hin.
Qed.

Lemma progress_not_deferred events ok :
  Forall deploy_progress events → EvDeferredOperations ok ∉ events.
Proof.
  intros Hall Hin. rewrite Forall_forall in Hall. by apply Hall in Hin.
Qed.

(** The deployment phase from its first event to its last. *)
Lemma deployment_outcome factory modules st :
  let r := deployment sys factory modules st in
  let deployers_of := sys_getDeployers sys factory in
  (r.1 = Exit 1
   ∧ ∃ pre module post k,
       modules = pre ++ module :: post
       ∧ trace r.2
         = trace st ++ module_events deployers_of pre
           ++ EvModule (name module)
           :: deployer_events (name module) 0
                (take k (deployers_of (name module)))
           ++ [EvDeploy (name module) k false])
  ∨ (∃ events1,
       trace r.2 = trace st ++ module_events deployers_of modules ++ events1
       ∧ ((r.1 = Continue 0 ∧ events1 = closing_events)
          ∨ (r.1 = Exit 1
             ∧ events1 ∈
                 [[EvDeployTranslations false;
                   EvLog LD_ERROR ["Failed to deploy translations"]];
                  [EvDeployTranslations true; EvDeferredOperations false;
                   EvLog LD_ERROR ["Failed to execute deferred operations"]];
                  [EvDeployTranslations true; EvDeferredOperations true;
                   EvQtConf false;
                   EvLog LD_ERROR ["Failed to create qt.conf in AppDir"]];
                  [EvDeployTranslations true; EvDeferredOperations true;
                   EvQtConf true; EvAppRunHook false;
                   EvLog LD_ERROR ["Failed to create AppRun hook in AppDir"]]]))).
Proof.
  cbv zeta.
  pose proof (deployment_closing_cases factory modules st) as Hclose.
  destruct (deployModules_trace factory modules st)
    as [[Hres Htrace]|(Hres & pre & m & post & k & Hmods & _ & Htrace)];
    destruct (deployModules sys factory modules st) as [r1 st1];
    cbn [fst snd] in Hres, Htrace; subst r1.
  - destruct Hclose as (r & w' & events1 & -> & Hcases). right.
    exists events1. cbn [fst snd trace].
    split; [by rewrite Htrace, <- app_assoc | done].
  - rewrite Hclose. left. split; [done|]. by exists pre, m, post, k.
Qed.

(** X15: unless the deployment of a module was started, a run leaves the
    bundle as it found it and logs no deployment event. *)
Theorem bundle_untouched_before_deployment cli st :
  let r := main QtModules sys cli st in
  module_headers (new_events st r.2) = [] →
  world r.2 = world st ∧ no_deployment (new_events st r.2).
Proof.
  cbv zeta.
  destruct (main_digest QtModules sys cli st)
    as [(r & events & -> & Hno & _)
       |(appDir & events & found & extra & _ & _ & _ & Hmods & _ & Hno & ->)].
  - intros _. cbn [snd]. split; [done|].
    by rewrite (new_events_app st (logged st events) events).
  - intros Hheaders. exfalso.
    match goal with
    | H : context [deployment sys ?f ?ms ?s] |- _ =>
        destruct (deployment_outcome f ms s)
          as [(_ & pre & m & post & k & _ & Htrace)|(events1 & Htrace & _)]
    end.
    + rewrite (new_events_app st _ _
                 (eq_trans Htrace (eq_sym (app_assoc _ _ _)))) in Hheaders.
      rewrite !module_headers_app in Hheaders. simpl in Hheaders.
      apply app_eq_nil in Hheaders as [_ Hheaders].
      apply app_eq_nil in Hheaders as [_ Hheaders]. discriminate Hheaders.
    + rewrite (new_events_app st _ _
                 (eq_trans Htrace (eq_sym (app_assoc _ _ _)))) in Hheaders.
      rewrite !module_headers_app, module_events_headers in Hheaders.
      apply app_eq_nil in Hheaders as [_ Hheaders].
      apply app_eq_nil in Hheaders as [Hheaders _].
      apply fmap_nil_inv in Hheaders. done.
Qed.

(** X16: no run executes the deferred operations of the bundle more than
    once, and a run executes them only after it has run every deployer of
    every module of the list with success, in order, and has deployed the
    translations. *)
Theorem deferred_operations_once cli w :
  let run := run_main QtModules sys cli w in
  (length (filter is_deferred run.2) ≤ 1)%nat
  ∧ (∀ ok,
       EvDeferredOperations ok ∈ run.2 →
       ∃ appDir found extra before after,
         reaches_resolution sys cli appDir
         ∧ foundQtModules QtModules sys (collectLibraryNames sys appDir)
           = Some found
         ∧ extraQtModules QtModules sys cli = Some extra
         ∧ no_deployment before
         ∧ run.2
           = before
             ++ module_events
                  (sys_getDeployers sys
                     (factory_of (queryQmake_value sys (findQmake sys))))
                  (qtModulesToDeploy found extra)
             ++ [EvDeployTranslations true; EvDeferredOperations ok] ++ after).
Proof.
  cbv zeta. unfold run_main. cbn [fst snd].
  destruct (main_digest QtModules sys cli {| world := w; trace := [] |})
    as [(r & events & -> & Hno & _)
       |(appDir & events & found & extra & Hreach & Hfound & Hextra & _ & _
         & Hno & ->)].
  - cbn [snd trace logged]. simpl. split.
    + rewrite filter_is_deferred_no_deployment by done. simpl. lia.
    + intros ok Hin. by apply (no_deployment_not_elem _ _ Hno) in Hin.
  - match goal with
    | |- context [deployment sys ?f ?ms ?s] =>
        destruct (deployment_outcome f ms s)
          as [(Hres & pre & m & post & k & _ & Htrace)
             |(events1 & Htrace & Hcases)]
    end; rewrite Htrace; cbn [trace logged]; simpl.
    + split.
      * rewrite !filter_app, filter_is_deferred_no_deployment by done.
        rewrite filter_is_deferred_progress by apply module_events_progress.
        rewrite filter_cons. simpl.
        rewrite filter_app, filter_is_deferred_progress
          by apply deployer_events_progress.
        simpl. lia.
      * intros ok. rewrite !elem_of_app, elem_of_cons, elem_of_app.
        intros [Hin|[Hin|[Hin|[Hin|Hin]]]].
        -- by apply (no_deployment_not_elem _ _ Hno) in Hin.
        -- by apply (progress_not_deferred _ _ (module_events_progress _ _))
             in Hin.
        -- discriminate Hin.
        -- by apply (progress_not_deferred _ _ (deployer_events_progress _ _ _))
             in Hin.
        -- apply list_elem_of_singleton in Hin. discriminate Hin.
    + assert (Hcount : (length (filter is_deferred events1) ≤ 1)%nat).
      { destruct Hcases as [[_ ->]|[_ Hin]]; [simpl; lia|].
        repeat (apply elem_of_cons in Hin as [->|Hin]; [simpl; lia|]).
        by apply elem_of_nil in Hin. }
      split.
      * rewrite !filter_app, filter_is_deferred_no_deployment by done.
        by rewrite filter_is_deferred_progress by apply module_events_progress.
      * intros ok. rewrite !elem_of_app. intros [Hin|[Hin|Hin]].
        -- by apply (no_deployment_not_elem _ _ Hno) in Hin.
        -- by apply (progress_not_deferred _ _ (module_events_progress _ _))
             in Hin.
        -- exists appDir, found, extra, events.
           assert (Hshape : ∃ after,
                     events1 = [EvDeployTranslations true;
                                EvDeferredOperations ok] ++ after).
           { destruct Hcases as [[_ ->]|[_ Hin1]].
             - unfold closing_events in *.
               repeat (apply elem_of_cons in Hin as [Hin|Hin];
                       [try discriminate Hin; injection Hin as ->;
                        by eexists|]).
               by apply elem_of_nil in Hin.
             - repeat (apply elem_of_cons in Hin1 as [->|Hin1];
                       [repeat (apply elem_of_cons in Hin as [Hin|Hin];
                                [try discriminate Hin; injection Hin as ->;
                                 by eexists|]);
                        by apply elem_of_nil in Hin|]).
               by apply elem_of_nil in Hin1. }
           destruct Hshape as [after ->]. exists after. done.
Qed.

(** X17: a run ends with status 0 exactly when it answered a plugin query
    or created the AppRun hook; and a run that created the AppRun hook did,
    after events that deploy nothing, deploy every module of the list with
    every one of its deployers in order, and then ran the four closing
    stages once each. *)
Theorem successful_run cli w :
  let run := run_main QtModules sys cli w in
  (run.1 = Returned 0
   ↔ (parse_ok cli = true ∧ (pluginType cli = true ∨ pluginApiVersion cli = true))
     ∨ EvAppRunHook true ∈ run.2)
  ∧ (EvAppRunHook true ∈ run.2 →
     ∃ appDir found extra before,
       reaches_resolution sys cli appDir
       ∧ foundQtModules QtModules sys (collectLibraryNames sys appDir)
         = Some found
       ∧ extraQtModules QtModules sys cli = Some extra
       ∧ no_deployment before
       ∧ run.2 = before
                 ++ module_events
                      (sys_getDeployers sys
                         (factory_of (queryQmake_value sys (findQmake sys))))
                      (qtModulesToDeploy found extra)
                 ++ closing_events).
Proof.
  cbv zeta. unfold run_main. cbn [fst snd].
  destruct (parse_ok cli && (pluginType cli || pluginApiVersion cli)) eqn:Hq.
  { apply andb_true_iff in Hq as [Hparse Hflags].
    apply orb_true_iff in Hflags.
    assert (Hrun : ∃ text, main QtModules sys cli {| world := w; trace := [] |}
                           = (Exit 0, logged {| world := w; trace := [] |}
                                        [EvStdout text])).
    { rewrite main_run, Hparse. cbn [negb].
      destruct (pluginType cli); [by eexists|].
      destruct Hflags as [Hflag|Hflag]; [done|]. rewrite Hflag. by eexists. }
    destruct Hrun as [text ->]. cbn [fst snd termination trace logged]. simpl.
    split; [split; [by left | done]|].
    intros Hin. apply list_elem_of_singleton in Hin. discriminate Hin. }
  assert (Hnq : ¬ (parse_ok cli = true
                   ∧ (pluginType cli = true ∨ pluginApiVersion cli = true))).
  { intros [Hparse [Hflag|Hflag]]; rewrite Hparse, Hflag in Hq;
      [done | by rewrite orb_true_r in Hq]. }
  destruct (main_digest QtModules sys cli {| world := w; trace := [] |})
    as [(r & events & -> & Hno & Hr)
       |(appDir & events & found & extra & Hreach & Hfound & Hextra & _ & _
         & Hno & ->)].
  - cbn [fst snd trace logged]. simpl.
    assert (Hhook : EvAppRunHook true ∉ events)
      by (by apply no_deployment_not_elem).
    assert (Hstatus : termination r ≠ Returned 0).
    { destruct Hr as [->|[(_ & Hparse & Hflags)|[fault ->]]];
        [done | by destruct Hnq | done]. }
    split; [|done]. split; [done | by intros [?|?]].
  - match goal with
    | |- context [deployment sys ?f ?ms ?s] =>
        destruct (deployment_outcome f ms s)
          as [(Hres & pre & m & post & k & _ & Htrace)
             |(events1 & Htrace & Hcases)]
    end; rewrite Htrace; cbn [trace logged]; simpl.
    + rewrite Hres. cbn [termination].
      assert (Hhook : EvAppRunHook true ∉
                events ++ module_events
                  (sys_getDeployers sys
                     (factory_of (queryQmake_value sys (findQmake sys)))) pre
                ++ EvModule (name m)
                :: deployer_events (name m) 0
                     (take k (sys_getDeployers sys
                                (factory_of (queryQmake_value sys (findQmake sys)))
                                (name m)))
                ++ [EvDeploy (name m) k false]).
      { rewrite !elem_of_app, elem_of_cons, elem_of_app.
        intros [Hin|[Hin|[Hin|[Hin|Hin]]]].
        - by apply (no_deployment_not_elem _ _ Hno) in Hin.
        - by apply (progress_not_hook _ (module_events_progress _ _)) in Hin.
        - discriminate Hin.
        - by apply (progress_not_hook _ (deployer_events_progress _ _ _)) in Hin.
        - apply list_elem_of_singleton in Hin. discriminate Hin. }
      split; [|done]. split; [done | by intros [?|?]].
    + destruct Hcases as [[-> ->]|[-> Hin1]]; cbn [termination].
      * split.
        -- split; [intros _; right | done].
           rewrite !elem_of_app. right. right. unfold closing_events.
           rewrite !elem_of_cons. auto.
        -- intros _. by exists appDir, found, extra, events.
      * assert (Hhook : EvAppRunHook true ∉
                  events ++ module_events
                    (sys_getDeployers sys
                       (factory_of (queryQmake_value sys (findQmake sys))))
                    (qtModulesToDeploy found extra)
                  ++ events1).
        { rewrite !elem_of_app. intros [Hin|[Hin|Hin]].
          - by apply (no_deployment_not_elem _ _ Hno) in Hin.
          - by apply (progress_not_hook _ (module_events_progress _ _)) in Hin.
          - repeat (apply elem_of_cons in Hin1 as [->|Hin1];
                    [repeat (apply elem_of_cons in Hin as [Hin|Hin];
                             [discriminate Hin|]);
                     by apply elem_of_nil in Hin|]).
            by apply elem_of_nil in Hin1. }
        split; [|done]. split; [done | by intros [?|?]].
Qed.

(** X18: a [qmake -query] that exits with a status other than 0 ends the
    run: whatever the process printed on its standard output, the run logs
    the text of its error stream and the failed query, deploys nothing and
    exits with status 1. *)
Theorem failed_qmake_call_is_fatal cli appDir w found extra :
  reaches_resolution sys cli appDir →
  foundQtModules QtModules sys (collectLibraryNames sys appDir) = Some found →
  extraQtModules QtModules sys cli = Some extra →
  qtModulesToDeploy found extra ≠ [] →
  findQmake sys ≠ EmptyString →
  sys_exists sys (findQmake sys) = Some true →
  proc_retcode (sys_popen sys [findQmake sys; "-query"]) ≠ 0 →
  run_main QtModules sys cli w
  = (Returned 1,
     copyright_events sys
     ++ [EvLog LD_ERROR
           ["Call to qmake failed:";
            c_text (proc_stderr (sys_popen sys [findQmake sys; "-query"]))];
         EvLog LD_ERROR ["Failed to query Qt paths using qmake -query"]]).
Proof.
  intros Hreach Hfound Hextra Hmods Hqmake Hexists Hcode. unfold run_main.
  rewrite (main_from_lists QtModules sys cli appDir _ found extra
             Hreach Hfound Hextra).
  unfold main_after_resolution.
  assert (Hboth : bool_decide (found = []) && bool_decide (extra = []) = false).
  { apply andb_false_iff.
    destruct found as [|m found']; [right | left; by apply bool_decide_eq_false_2].
    apply bool_decide_eq_false_2. intros ->. by apply Hmods. }
  rewrite Hboth, (bool_decide_eq_false_2 _ Hqmake), Hexists.
  unfold main_after_checks, queryQmake_value, check_command.
  cbn [success stderrOutput].
  apply Z.eqb_neq in Hcode. rewrite Hcode. cbn [negb].
  rewrite bool_decide_eq_true_2 by done. done.
Qed.

End Runs.

Lemma bundle_untouched_before_deployment_witness :
  let r := main Sample.catalog Sample.sys_empty_bundle (Sample.command_line [])
             Sample.start in
  module_headers (new_events Sample.start r.2) = []
  ∧ world r.2 = world Sample.start
  ∧ no_deployment (new_events Sample.start r.2).
Proof.
  intros r.
  assert (Hheaders : module_headers (new_events Sample.start r.2) = [])
    by (vm_compute; reflexivity).
  exact (conj Hheaders
           (bundle_untouched_before_deployment Sample.catalog
              Sample.sys_empty_bundle (Sample.command_line []) Sample.start
              Hheaders)).
Defined.

Lemma deferred_operations_once_witness :
  let run := run_main Sample.catalog Sample.sys_widgets (Sample.command_line []) tt in
  EvDeferredOperations true ∈ run.2
  ∧ ∃ before after,
      no_deployment before
      ∧ run.2 = before ++ [EvModule "widgets"; EvDeploy "widgets" 0 true]
                ++ [EvDeployTranslations true; EvDeferredOperations true]
                ++ after.
Proof.
  intros run.
  assert (Hin : EvDeferredOperations true ∈ run.2)
    by (apply (bool_decide_unpack _); vm_compute; exact I).
  destruct (deferred_operations_once Sample.catalog Sample.sys_widgets
              (Sample.command_line []) tt) as [_ Hshape].
  destruct (Hshape true Hin)
    as (appDir & found & extra & before & after & Hreach & Hfound & Hextra
        & Hno & Htrace).
  assert (Hfound' : found = [Sample.widgets]).
  { destruct Hreach as (_ & _ & _ & Happ & _). injection Happ as <-.
    revert Hfound. vm_compute. by intros [= <-]. }
  assert (Hextra' : extra = []).
  { revert Hextra. vm_compute. by intros [= <-]. }
  subst found extra.
  exact (conj Hin (ex_intro _ before (ex_intro _ after (conj Hno Htrace)))).
Defined.

Lemma successful_run_witness :
  let run := run_main Sample.catalog Sample.sys_widgets (Sample.command_line []) tt in
  EvAppRunHook true ∈ run.2
  ∧ run.1 = Returned 0
  ∧ ∃ before,
      no_deployment before
      ∧ run.2 = before ++ [EvModule "widgets"; EvDeploy "widgets" 0 true]
                ++ closing_events.
Proof.
  intros run.
  assert (Hhook : EvAppRunHook true ∈ run.2)
    by (apply (bool_decide_unpack _); vm_compute; exact I).
  destruct (successful_run Sample.catalog Sample.sys_widgets
              (Sample.command_line []) tt) as [Hstatus Hshape].
  destruct (Hshape Hhook)
    as (appDir & found & extra & before & Hreach & Hfound & Hextra & Hno & Htrace).
  assert (Hfound' : found = [Sample.widgets]).
  { destruct Hreach as (_ & _ & _ & Happ & _). injection Happ as <-.
    revert Hfound. vm_compute. by intros [= <-]. }
  assert (Hextra' : extra = []).
  { revert Hextra. vm_compute. by intros [= <-]. }
  subst found extra.
  exact (conj Hhook (conj (proj2 Hstatus (or_intror Hhook))
           (ex_intro _ before (conj Hno Htrace)))).
Defined.

Lemma failed_qmake_call_is_fatal_witness :
  let sys := SampleFailures.sys_qmake_fails in
  let cli := Sample.command_line [] in
  reaches_resolution sys cli "AppDir"
  ∧ foundQtModules Sample.catalog sys (collectLibraryNames sys "AppDir")
    = Some [Sample.widgets]
  ∧ extraQtModules Sample.catalog sys cli = Some []
  ∧ qtModulesToDeploy [Sample.widgets] [] ≠ []
  ∧ findQmake sys ≠ EmptyString
  ∧ sys_exists sys (findQmake sys) = Some true
  ∧ proc_retcode (sys_popen sys [findQmake sys; "-query"]) ≠ 0
  ∧ run_main Sample.catalog sys cli tt
    = (Returned 1,
       [EvLog LD_ERROR ["Call to qmake failed:";
                        "qmake: could not find a Qt installation of ''"
                        +:+ Sample.nl];
        EvLog LD_ERROR ["Failed to query Qt paths using qmake -query"]]).
Proof.
  intros sys cli.
  assert (Hreach : reaches_resolution sys cli "AppDir") by (by repeat split).
  assert (Hfound : foundQtModules Sample.catalog sys
                     (collectLibraryNames sys "AppDir") = Some [Sample.widgets])
    by (vm_compute; reflexivity).
  assert (Hextra : extraQtModules Sample.catalog sys cli = Some [])
    by (vm_compute; reflexivity).
  assert (Hmods : qtModulesToDeploy [Sample.widgets] [] ≠ []) by discriminate.
  assert (Hqmake : findQmake sys ≠ EmptyString) by (vm_compute; discriminate).
  assert (Hexists : sys_exists sys (findQmake sys) = Some true)
    by (vm_compute; reflexivity).
  assert (Hcode : proc_retcode (sys_popen sys [findQmake sys; "-query"]) ≠ 0)
    by (vm_compute; discriminate).
  exact (conj Hreach (conj Hfound (conj Hextra (conj Hmods (conj Hqmake
           (conj Hexists (conj Hcode
              (failed_qmake_call_is_fatal Sample.catalog sys cli "AppDir" tt
                 _ _ Hreach Hfound Hextra Hmods Hqmake Hexists Hcode)))))))).
Defined.

(** ** The search for qmake *)

Section QmakeSearch.

Context {World Deployer : Type}.
Variable sys : System World Deployer.

Lemma which_nul_free name : nul_free (which sys name).
Proof.
  unfold which. destruct (negb _); [done|].
  set (text := c_text _).
  destruct (strip_trailing_newlines_split text) as [n Hsplit].
  pose proof (c_text_nul_free (proc_stdout (sys_popen sys ["which"; name])))
    as Hnf.
  fold text in Hnf. rewrite Hsplit in Hnf.
  by apply nul_free_app in Hnf as [Hnf _].
Qed.

Lemma which_no_newline_at_end name front :
  which sys name ≠ front +:+ String newline EmptyString.
Proof.
  unfold which. destruct (negb _); [by destruct front|].
  apply strip_trailing_newlines_end.
Qed.

Lemma which_empty name :
  (proc_retcode (sys_popen sys ["which"; name]) = 0 →
   ∃ front c back,
     c ≠ newline
     ∧ c_text (proc_stdout (sys_popen sys ["which"; name]))
       = front +:+ String c back) →
  which sys name = EmptyString
  ↔ proc_retcode (sys_popen sys ["which"; name]) ≠ 0.
Proof.
  intros Hprints. unfold which.
  destruct (Z.eqb_spec (proc_retcode (sys_popen sys ["which"; name])) 0)
    as [Hz|Hz]; cbn [negb]; [|done].
  split; [|done]. intros Hnone.
  destruct (Hprints Hz) as (front & c & back & Hc & Htext).
  by apply (strip_trailing_newlines_kept _ _ _ _ Hc Htext) in Hnone.
Qed.

(** X19: when each successful [which] prints some byte that is not a
    newline, the path that [findQmake] returns holds no NUL byte; it does
    not end in a newline unless [QMAKE] is set; and it is empty exactly
    when [QMAKE] is set to the empty text, or [QMAKE] is not set and both
    [which qmake-qt5] and [which qmake] fail. *)
Theorem findQmake_spec :
  (∀ name, name ∈ ["qmake-qt5"; "qmake"] →
           proc_retcode (sys_popen sys ["which"; name]) = 0 →
           ∃ front c back,
             c ≠ newline
             ∧ c_text (proc_stdout (sys_popen sys ["which"; name]))
               = front +:+ String c back) →
  nul_free (findQmake sys)
  ∧ (sys_getenv sys "QMAKE" = None →
     ∀ front, findQmake sys ≠ front +:+ String newline EmptyString)
  ∧ (findQmake sys = EmptyString
     ↔ match sys_getenv sys "QMAKE" with
       | Some data => c_text data = EmptyString
       | None =>
           ∀ name, name ∈ ["qmake-qt5"; "qmake"] →
                   proc_retcode (sys_popen sys ["which"; name]) ≠ 0
       end).
Proof.
  intros Hprints.
  assert (Hfirst_in : "qmake-qt5" ∈ ["qmake-qt5"; "qmake"]) by (by left).
  assert (Hsecond_in : "qmake" ∈ ["qmake-qt5"; "qmake"]) by (right; by left).
  pose proof (which_empty "qmake-qt5" (Hprints _ Hfirst_in)) as Hfirst.
  pose proof (which_empty "qmake" (Hprints _ Hsecond_in)) as Hsecond.
  unfold findQmake. destruct (sys_getenv sys "QMAKE") as [data|].
  { split; [apply c_text_nul_free|]. split; done. }
  cbv zeta. destruct (which sys "qmake-qt5") as [|c path] eqn:Hpath.
  - split; [apply which_nul_free|].
    split; [intros _ front; apply which_no_newline_at_end|].
    rewrite Hsecond. split.
    + intros Hfails name Hin.
      apply elem_of_cons in Hin as [->|Hin]; [by apply Hfirst|].
      apply list_elem_of_singleton in Hin as ->. done.
    + intros Hall. by apply Hall.
  - split; [rewrite <- Hpath; apply which_nul_free|].
    split; [intros _ front; rewrite <- Hpath; apply which_no_newline_at_end|].
    split; [done|]. intros Hall.
    apply Hall, Hfirst in Hfirst_in. discriminate Hfirst_in.
Qed.

End QmakeSearch.

Lemma findQmake_spec_witness :
  let sys := Sample.sys_widgets in
  (∀ name, name ∈ ["qmake-qt5"; "qmake"] →
           proc_retcode (sys_popen sys ["which"; name]) = 0 →
           ∃ front c back,
             c ≠ newline
             ∧ c_text (proc_stdout (sys_popen sys ["which"; name]))
               = front +:+ String c back)
  ∧ nul_free (findQmake sys)
  ∧ findQmake sys ≠ "/usr/bin/qmake-qt5" +:+ String newline EmptyString.
Proof.
  intros sys.
  assert (Hprints : ∀ name, name ∈ ["qmake-qt5"; "qmake"] →
            proc_retcode (sys_popen sys ["which"; name]) = 0 →
            ∃ front c back,
              c ≠ newline
              ∧ c_text (proc_stdout (sys_popen sys ["which"; name]))
                = front +:+ String c back).
  { intros name Hin.
    apply elem_of_cons in Hin as [->|Hin].
    - intros _. exists EmptyString, "/"%char, ("usr/bin/qmake-qt5" +:+ Sample.nl).
      split; [discriminate | reflexivity].
    - apply list_elem_of_singleton in Hin as ->. intros Hcode.
      discriminate Hcode. }
  destruct (findQmake_spec sys Hprints) as (Hnf & Hend & _).
  exact (conj Hprints (conj Hnf (Hend eq_refl "/usr/bin/qmake-qt5"))).
Defined.
